(** * Verification of the master-file merge engine

    Shallow embedding of [src/lib/masterFileService.ts] (row merge, ledger
    rewrite, ledger read), [src/lib/masterFileLoader.ts] (conversion of ledger
    rows to dashboard orders) and of the row-mapping loop of the upload page
    ([processFile]).

    Modelling conventions.
    - A JavaScript object used as a row is a finite map from property names to
      values; the enumeration order of its properties is not modelled (it only
      decides the column order of the written sheet).  A raw spreadsheet row,
      whose keys are searched in order by [getValue], is an association list.
    - [orderId] and [subOrderId], declared [string] by the [MergedRow]
      interface, are record fields; every other property lives in [props].
    - Numbers are exact rationals; the rounding of IEEE doubles and NaN are
      not modelled (no definition below depends on them).
    - Strings are byte strings: case folding and white space are those of
      ASCII.
    - The spreadsheet codec is the identity on lists of rows: where two
      ingestions are composed, the second reads the rows the first wrote.
      The empty strings with which the decoder fills the cells a written row
      did not have ([defval: '']) are not modelled.
    - [String.prototype.localeCompare] and the date parser of the host are
      parameters of the definitions that call them. *)

From Stdlib Require Import QArith Ascii String.
From Stdlib Require Import Sorting.Sorted.
From stdpp Require Import base strings gmap list sorting.


(** ** JavaScript values *)

Inductive value : Type :=
| VUndef
| VNull
| VBool (b : bool)
| VNum (q : Q)
| VStr (s : string).

Definition str_nonempty (s : string) : bool :=
  match s with
  | EmptyString => false
  | String _ _ => true
  end.

(** [if (v)]: undefined, null, false, 0 and the empty string are falsy. *)
Definition truthy (v : value) : bool :=
  match v with
  | VUndef | VNull => false
  | VBool b => b
  | VNum q => negb (Qeq_bool q 0)
  | VStr s => str_nonempty s
  end.

(** [a || b] on values and on strings. *)
Definition js_or (a b : value) : value := if truthy a then a else b.
Definition str_or (a b : string) : string := if str_nonempty a then a else b.

(** ** Rows of the master file *)

Record MergedRow : Type := mkRow {
  orderId : string;
  subOrderId : string;
  props : gmap string value
}.

(** [row.k]: reading a property that is not there gives undefined. *)
Definition field (r : MergedRow) (k : string) : value :=
  default VUndef (props r !! k).

Inductive FileType : Type := sales | payment | gst | refund.

(** ** mergeRowData

    Every statement of the body has the shape
    [if (guard(newRow.k)) merged.k = newRow.k], with one of three guards. *)

Inductive guard : Type :=
| IfTruthy        (* if (newRow.k) *)
| IfNotNullish    (* if (newRow.k !== undefined && newRow.k !== null) *)
| IfNotUndefined. (* if (newRow.k !== undefined) *)

Definition passes (g : guard) (v : value) : bool :=
  match g with
  | IfTruthy => truthy v
  | IfNotNullish => match v with VUndef | VNull => false | _ => true end
  | IfNotUndefined => match v with VUndef => false | _ => true end
  end.

Definition assign (newRow : MergedRow) (merged : gmap string value)
    (u : guard * string) : gmap string value :=
  if passes u.1 (field newRow u.2) then <[u.2 := field newRow u.2]> merged
  else merged.

Definition assign_all (newRow : MergedRow) (us : list (guard * string))
    (merged : gmap string value) : gmap string value :=
  foldl (assign newRow) merged us.

Definition sales_updates : list (guard * string) :=
  [ (IfTruthy, "productName"); (IfTruthy, "sku"); (IfTruthy, "skuName");
    (IfNotNullish, "quantity"); (IfTruthy, "status");
    (IfTruthy, "customerName"); (IfTruthy, "customerState");
    (IfTruthy, "customerCity"); (IfTruthy, "customerPincode");
    (IfNotNullish, "wholesalePrice"); (IfNotNullish, "sellingPrice");
    (IfNotNullish, "shippingCharge"); (IfTruthy, "orderDate") ].

Definition payment_updates : list (guard * string) :=
  [ (IfTruthy, "paymentMode"); (IfTruthy, "hsn");
    (IfNotNullish, "commission"); (IfNotNullish, "tcs");
    (IfNotNullish, "tds"); (IfNotNullish, "shipperCharge");
    (IfNotNullish, "netAmount");
    (* Update these if they exist in payment file *)
    (IfNotNullish, "wholesalePrice"); (IfNotNullish, "shippingCharge");
    (IfTruthy, "customerCity"); (IfTruthy, "customerPincode");
    (IfTruthy, "customerState"); (IfTruthy, "productName");
    (IfTruthy, "status") ].

Definition gst_updates : list (guard * string) :=
  [ (IfTruthy, "invoiceNumber"); (IfTruthy, "invoiceDate"); (IfTruthy, "hsn");
    (IfNotNullish, "gstRate"); (IfNotNullish, "taxableValue");
    (IfNotNullish, "cgst"); (IfNotNullish, "sgst"); (IfNotNullish, "igst");
    (IfNotNullish, "invoiceAmount");
    (* Update these if they exist in GST file *)
    (IfTruthy, "sku"); (IfTruthy, "productName"); (IfNotNullish, "quantity");
    (IfTruthy, "customerState"); (IfTruthy, "status") ].

Definition refund_updates : list (guard * string) :=
  [ (IfNotNullish, "refundAmount"); (IfNotNullish, "deductionAmount");
    (IfTruthy, "refundReason"); (IfTruthy, "refundDate");
    (IfNotNullish, "gstRefund") ].

Definition kind_updates (fileType : FileType) : list (guard * string) :=
  match fileType with
  | sales => sales_updates
  | payment => payment_updates
  | gst => gst_updates
  | refund => refund_updates
  end.

(** Always allow status and gstRefund updates (for returns). *)
Definition always_updates : list (guard * string) :=
  [ (IfNotUndefined, "status"); (IfNotNullish, "gstRefund") ].

(** The closing loop over [Object.keys(newRow)]: a key other than the two
    identity keys is copied when [merged] does not have it. *)
Definition add_missing (newRow : MergedRow) (merged : gmap string value)
    : gmap string value :=
  merged ∪ delete "orderId" (delete "subOrderId" (props newRow)).

Definition mergeRowData (existing newRow : MergedRow) (fileType : FileType)
    : MergedRow :=
  {| orderId := orderId existing;
     subOrderId := str_or (subOrderId existing) (orderId existing);
     props :=
       add_missing newRow
         (assign_all newRow always_updates
            (assign_all newRow (kind_updates fileType) (props existing))) |}.

(** The fields a merge of kind [fileType] may assign. *)
Definition updated_fields (fileType : FileType) : list string :=
  (kind_updates fileType ++ always_updates).*2.

(** ** Strings *)

Definition is_upper (c : ascii) : bool :=
  ((65 <=? nat_of_ascii c) && (nat_of_ascii c <=? 90))%nat.

Definition lower_char (c : ascii) : ascii :=
  if is_upper c then ascii_of_nat (nat_of_ascii c + 32) else c.

Fixpoint toLowerCase (s : string) : string :=
  match s with
  | EmptyString => EmptyString
  | String c s' => String (lower_char c) (toLowerCase s')
  end.

Fixpoint trimStart (s : string) : string :=
  match s with
  | EmptyString => EmptyString
  | String c s' => if Ascii.is_space c then trimStart s' else s
  end.

Fixpoint trimEnd (s : string) : string :=
  match s with
  | EmptyString => EmptyString
  | String c s' =>
      match trimEnd s' with
      | EmptyString => if Ascii.is_space c then EmptyString else String c EmptyString
      | String d t => String c (String d t)
      end
  end.

Definition trim (s : string) : string := trimEnd (trimStart s).

(** [s.replace(/\s+/g, ' ')]; [in_run] tells that the previous character was
    white space. *)
Fixpoint collapse_spaces (in_run : bool) (s : string) : string :=
  match s with
  | EmptyString => EmptyString
  | String c s' =>
      if Ascii.is_space c then
        if in_run then collapse_spaces true s'
        else String " "%char (collapse_spaces true s')
      else String c (collapse_spaces false s')
  end.

Fixpoint filter_chars (keep : ascii → bool) (s : string) : string :=
  match s with
  | EmptyString => EmptyString
  | String c s' =>
      if keep c then String c (filter_chars keep s') else filter_chars keep s'
  end.

Fixpoint has_prefix (p s : string) : bool :=
  match p, s with
  | EmptyString, _ => true
  | String a p', String b s' => if Ascii.eqb a b then has_prefix p' s' else false
  | String _ _, EmptyString => false
  end.

(** [s.includes(p)] *)
Fixpoint includes (s p : string) : bool :=
  has_prefix p s ||
  match s with
  | EmptyString => false
  | String _ s' => includes s' p
  end.

Definition is_digit (c : ascii) : bool :=
  match Ascii.is_nat c with Some _ => true | None => false end.

(** ** parseNumber (upload page) *)

(** The leading decimal digits of [s], most significant first, and the rest. *)
Fixpoint span_digits (s : string) : list Z * string :=
  match s with
  | EmptyString => ([], EmptyString)
  | String c s' =>
      match Ascii.is_nat c with
      | Some d => let '(ds, r) := span_digits s' in (Z.of_nat d :: ds, r)
      | None => ([], s)
      end
  end.

Definition digits_value (ds : list Z) : Z :=
  foldl (fun acc d => (10 * acc + d)%Z) 0%Z ds.

(** [parseFloat] on the alphabet the cleaning leaves (digits, '.', '-'): an
    optional sign, digits, an optional point and digits; the longest such
    prefix is read and [None] stands for NaN. *)
Definition parseFloat (s : string) : option Q :=
  let '(neg, s1) :=
    match s with
    | String "-"%char r => (true, r)
    | _ => (false, s)
    end in
  let '(ip, s2) := span_digits s1 in
  let fp :=
    match s2 with
    | String "."%char r => (span_digits r).1
    | _ => []
    end in
  match (ip ++ fp)%list with
  | [] => None
  | ds =>
      let m := digits_value ds in
      Some (Qred ((if neg then - m else m)%Z # Pos.of_nat (10 ^ length fp)))
  end.

Definition number_char (c : ascii) : bool :=
  is_digit c || Ascii.eqb c "."%char || Ascii.eqb c "-"%char.

Definition parseNumber (value : string) : Q :=
  if str_nonempty value then
    match parseFloat (filter_chars number_char value) with
    | Some num => num
    | None => 0%Q
    end
  else 0%Q.

(** ** getValue (upload page): the header resolver *)

(** A parsed spreadsheet row: column name and formatted cell text, in column
    order ([sheet_to_json] with [raw: false] and [defval: '']). *)
Definition RawRow : Type := list (string * string).

(** The header configuration of one upload type; an unset header reads as the
    empty string, which [getValue] and the [if (headers.k)] tests treat like
    undefined. *)
Definition header (headers : gmap string string) (k : string) : string :=
  default EmptyString (headers !! k).

Fixpoint raw_get (row : RawRow) (k : string) : option string :=
  match row with
  | [] => None
  | (k', v) :: row' => if String.eqb k' k then Some v else raw_get row' k
  end.

Definition normalize (str : string) : string :=
  trim (collapse_spaces false (toLowerCase str)).

Definition separator_char (c : ascii) : bool :=
  Ascii.eqb c "_"%char || Ascii.is_space c || Ascii.eqb c "-"%char.

Definition loosen (str : string) : string :=
  filter_chars (fun c => negb (separator_char c)) str.

(** [row[k] !== undefined && row[k] !== null && row[k] !== ''] *)
Definition cell (row : RawRow) (k : string) : option string :=
  match raw_get row k with
  | Some v => if str_nonempty v then Some v else None
  | None => None
  end.

(** [key && row[key] ...] for the result of [Object.keys(row).find]. *)
Definition cell_of_found (row : RawRow) (found : option string) : option string :=
  match found with
  | Some key => if str_nonempty key then cell row key else None
  | None => None
  end.

Definition getValue (row : RawRow) (headerName : string) : string :=
  if str_nonempty headerName then
    let normalizedHeader := normalize headerName in
    match cell row headerName with
    | Some v => v
    | None =>
        match cell_of_found row
                (List.find (fun k => String.eqb (normalize k) normalizedHeader)
                   row.*1) with
        | Some v => v
        | None =>
            match cell_of_found row
                    (List.find
                       (fun k => String.eqb (loosen (normalize k))
                                   (loosen normalizedHeader))
                       row.*1) with
            | Some v => v
            | None => EmptyString
            end
        end
    end
  else EmptyString.

(** ** The identity key *)

(** [`${orderId}_${subOrderId || orderId}`.toLowerCase().trim()] *)
Definition identityKey (oid sub : string) : string :=
  trim (toLowerCase (oid +:+ "_" +:+ str_or sub oid)).

Definition rowKey (row : MergedRow) : string :=
  identityKey (orderId row) (subOrderId row).

(** The key the rewrite sorts by: no case folding, no trimming. *)
Definition sortKey (row : MergedRow) : string :=
  orderId row +:+ "_" +:+ str_or (subOrderId row) (orderId row).

(** ** The row loop of processFile *)

Inductive coercion : Type :=
| AsText       (* getValue(row, h) *)
| AsLower      (* getValue(row, h).toLowerCase() *)
| AsNumber     (* parseNumber(getValue(row, h)) *)
| AsNumberOr1  (* parseNumber(getValue(row, h)) || 1 *)
| AsDate.      (* parseDate(getValue(row, h)) *)

(** One assignment [mergedRow.k = ...]; [true] in the first component stands
    for the [if (headers.k)] in front of it. *)
Definition mapping : Type := bool * string * coercion.

Definition sales_mapping : list mapping :=
  [ (false, "productName", AsText); (false, "sku", AsText);
    (false, "skuName", AsText); (false, "quantity", AsNumberOr1);
    (false, "status", AsLower); (false, "customerName", AsText);
    (false, "customerState", AsText); (false, "customerCity", AsText);
    (false, "customerPincode", AsText); (false, "wholesalePrice", AsNumber);
    (false, "sellingPrice", AsNumber); (false, "shippingCharge", AsNumber) ].

Definition payment_mapping : list mapping :=
  [ (true, "productName", AsText); (true, "status", AsLower);
    (false, "paymentMode", AsText); (false, "hsn", AsText);
    (false, "wholesalePrice", AsNumber); (false, "shippingCharge", AsNumber);
    (false, "tcs", AsNumber); (false, "tds", AsNumber);
    (false, "commission", AsNumber); (false, "shipperCharge", AsNumber);
    (false, "netAmount", AsNumber); (true, "customerCity", AsText);
    (true, "customerPincode", AsText); (true, "customerState", AsText) ].

Definition gst_mapping : list mapping :=
  [ (true, "status", AsLower); (false, "invoiceNumber", AsText);
    (false, "invoiceDate", AsDate); (false, "hsn", AsText);
    (false, "gstRate", AsNumber); (true, "sku", AsText);
    (true, "productName", AsText); (true, "quantity", AsNumberOr1);
    (true, "customerState", AsText); (false, "taxableValue", AsNumber);
    (false, "cgst", AsNumber); (false, "igst", AsNumber);
    (false, "sgst", AsNumber); (false, "invoiceAmount", AsNumber) ].

Definition refund_mapping : list mapping :=
  [ (false, "refundAmount", AsNumber); (false, "deductionAmount", AsNumber);
    (false, "refundReason", AsText); (false, "refundDate", AsDate) ].

Definition kind_mapping (uploadType : FileType) : list mapping :=
  match uploadType with
  | sales => sales_mapping
  | payment => payment_mapping
  | gst => gst_mapping
  | refund => refund_mapping
  end.

(** The identity a row of the uploaded file is given. *)
Definition extractedOrderId (headers : gmap string string) (row : RawRow)
    : string :=
  getValue row (header headers "orderId").

Definition extractedSubOrderId (headers : gmap string string) (row : RawRow)
    : string :=
  str_or (getValue row (header headers "subOrderId"))
    (extractedOrderId headers row).

(** The negation of [!orderId || orderId.trim() === '']. *)
Definition hasOrderId (oid : string) : bool :=
  str_nonempty oid && str_nonempty (trim oid).

(** [`${orderId}_${subOrderId}`.toLowerCase().trim()] *)
Definition uniqueKey (headers : gmap string string) (row : RawRow) : string :=
  trim (toLowerCase (extractedOrderId headers row +:+ "_"
                       +:+ extractedSubOrderId headers row)).

(** What the loop has accumulated so far. *)
Record Progress : Type := mkProgress {
  mergedRows : list MergedRow;
  errorCount : nat;
  successCount : nat;
  duplicateCount : nat;
  processedKeys : gset string
}.

Definition start : Progress :=
  {| mergedRows := []; errorCount := 0; successCount := 0;
     duplicateCount := 0; processedKeys := ∅ |}.

Section Upload.

(** [new Date(value)] of the host: the ISO day when the text is a date the
    host can parse and print, [None] otherwise. *)
Variable isoDay : string → option string.

Definition parseDate (value : string) : string :=
  if str_nonempty value then default value (isoDay value) else EmptyString.

Definition coerce (c : coercion) (text : string) : value :=
  match c with
  | AsText => VStr text
  | AsLower => VStr (toLowerCase text)
  | AsNumber => VNum (parseNumber text)
  | AsNumberOr1 => js_or (VNum (parseNumber text)) (VNum 1)
  | AsDate => VStr (parseDate text)
  end.

Definition map_field (row : RawRow) (headers : gmap string string)
    (mergedRow : gmap string value) (m : mapping) : gmap string value :=
  let '(guarded, k, c) := m in
  if guarded && negb (str_nonempty (header headers k)) then mergedRow
  else <[k := coerce c (getValue row (header headers k))]> mergedRow.

(** [{ orderId, subOrderId, orderDate, ...row }] followed by the
    assignments of the upload type.  A raw column that happens to be called
    orderId or subOrderId overrides the extracted identity, as the spread
    does. *)
Definition toMergedRow (row : RawRow) (headers : gmap string string)
    (uploadType : FileType) (oid sub orderDate : string) : MergedRow :=
  let spread : gmap string value := VStr <$> list_to_map row in
  {| orderId := default oid (raw_get row "orderId");
     subOrderId := default sub (raw_get row "subOrderId");
     props :=
       foldl (map_field row headers)
         (delete "orderId" (delete "subOrderId" spread)
            ∪ {[ "orderDate" := VStr orderDate ]})
         (kind_mapping uploadType) |}.

Definition processRow (headers : gmap string string) (uploadType : FileType)
    (p : Progress) (row : RawRow) : Progress :=
  let oid := extractedOrderId headers row in
  let sub := extractedSubOrderId headers row in
  let orderDate := parseDate (getValue row (header headers "orderDate")) in
  if hasOrderId oid then
    if decide (uniqueKey headers row ∈ processedKeys p) then
      (* Skip duplicates within the same file *)
      {| mergedRows := mergedRows p; errorCount := errorCount p;
         successCount := successCount p;
         duplicateCount := S (duplicateCount p);
         processedKeys := processedKeys p |}
    else
      {| mergedRows :=
           mergedRows p ++ [toMergedRow row headers uploadType oid sub orderDate];
         errorCount := errorCount p;
         successCount := S (successCount p);
         duplicateCount := duplicateCount p;
         processedKeys := {[ uniqueKey headers row ]} ∪ processedKeys p |}
  else
    (* Skip rows without order ID *)
    {| mergedRows := mergedRows p; errorCount := S (errorCount p);
       successCount := successCount p; duplicateCount := duplicateCount p;
       processedKeys := processedKeys p |}.

(** Step 3 of [processFile]: the rows in file order. *)
Definition processRows (headers : gmap string string) (uploadType : FileType)
    (rows : list RawRow) : Progress :=
  foldl (processRow headers uploadType) start rows.

End Upload.

(** ** readMasterFile *)

(** The error object a failed read throws, as far as the handler looks at
    it: [error.code], [error.message], [error.name] and
    [error.serverResponse.statusCode]. *)
Record StorageError : Type := mkError {
  code : option string;
  message : option string;
  name : option string;
  statusCode : option Z
}.

(** What happens inside the [try] block of a read. *)
Inductive ReadAttempt : Type :=
| Fetched (rows : list MergedRow)  (* the sheet was downloaded and decoded *)
| NotOk (statusText : string)      (* the response arrived with !response.ok *)
| Raised (error : StorageError).   (* getDownloadURL, fetch or the decoder threw *)

Inductive Outcome (A : Type) : Type :=
| Returned (a : A)
| Thrown (msg : string).
Arguments Returned {A} a.
Arguments Thrown {A} msg.

Definition code_is (error : StorageError) (c : string) : bool :=
  match code error with Some c' => String.eqb c' c | None => false end.

(** [error?.message?.includes(p)] *)
Definition message_includes (error : StorageError) (p : string) : bool :=
  match message error with Some m => includes m p | None => false end.

Definition name_is (error : StorageError) (n : string) : bool :=
  match name error with Some n' => String.eqb n' n | None => false end.

Definition treated_as_missing (error : StorageError) : bool :=
  code_is error "storage/object-not-found" ||
  code_is error "storage/unauthorized" ||
  code_is error "storage/unknown" ||
  message_includes error "not found" ||
  message_includes error "No such object" ||
  match statusCode error with Some s => (s =? 404)%Z | None => false end ||
  message_includes error "404".

Definition treated_as_cors (error : StorageError) : bool :=
  message_includes error "CORS" ||
  message_includes error "Access-Control-Allow-Origin" ||
  message_includes error "blocked by CORS policy" ||
  message_includes error "Failed to fetch" ||
  (name_is error "TypeError" && message_includes error "fetch").

Definition cors_message : string :=
  "CORS configuration required. See QUICK_CORS_FIX.md for setup instructions.".

Definition handle_read_error (error : StorageError) : Outcome (list MergedRow) :=
  if treated_as_missing error then Returned []
  else if treated_as_cors error then Thrown cors_message
  else (* For other errors, return empty array *) Returned [].

Definition readMasterFile (attempt : ReadAttempt) : Outcome (list MergedRow) :=
  match attempt with
  | Fetched rows => Returned rows
  | NotOk statusText =>
      handle_read_error
        {| code := None;
           message := Some ("Failed to fetch file: " +:+ statusText);
           name := Some "Error";
           statusCode := None |}
  | Raised error => handle_read_error error
  end.

(** ** mergeIntoMasterFile *)

(** A JavaScript [Map] with string keys: entries in insertion order; [set] on a
    key that is there replaces the value where it stands. *)
Fixpoint jsmap_get {V : Type} (m : list (string * V)) (k : string) : option V :=
  match m with
  | [] => None
  | (k', v) :: m' => if String.eqb k' k then Some v else jsmap_get m' k
  end.

Fixpoint jsmap_set {V : Type} (m : list (string * V)) (k : string) (v : V)
    : list (string * V) :=
  match m with
  | [] => [(k, v)]
  | (k', v') :: m' =>
      if String.eqb k' k then (k', v) :: m' else (k', v') :: jsmap_set m' k v
  end.

Definition jsmap_has {V : Type} (m : list (string * V)) (k : string) : bool :=
  match jsmap_get m k with Some _ => true | None => false end.

(** The two maps of the merge: [existingMap] and [newRowsMap]. *)
Definition Maps : Type := list (string * MergedRow) * list (string * MergedRow).

Definition index_existing (existingRows : list MergedRow)
    : list (string * MergedRow) :=
  foldl (fun m row => jsmap_set m (rowKey row) row) [] existingRows.

Definition merge_step (fileType : FileType) (maps : Maps) (newRow : MergedRow)
    : Maps :=
  let '(existingMap, newRowsMap) := maps in
  if str_nonempty (orderId newRow) then
    let key := rowKey newRow in
    match jsmap_get existingMap key with
    | Some existing =>
        (jsmap_set existingMap key (mergeRowData existing newRow fileType),
         newRowsMap)
    | None =>
        match jsmap_get newRowsMap key with
        | Some existingNew =>
            (existingMap,
             jsmap_set newRowsMap key (mergeRowData existingNew newRow fileType))
        | None => (existingMap, jsmap_set newRowsMap key newRow)
        end
    end
  else (* Skip rows without orderId *) maps.

(** Add all new rows (that weren't duplicates of existing) to the map. *)
Definition add_new_rows (existingMap newRowsMap : list (string * MergedRow))
    : list (string * MergedRow) :=
  foldl (fun m kv => if jsmap_has m kv.1 then m else jsmap_set m kv.1 kv.2)
    existingMap newRowsMap.

Section Ledger.

(** [String.prototype.localeCompare] of the host, by the sign of its
    result. *)
Variable localeCompare : string → string → comparison.

Definition not_after (a b : MergedRow) : bool :=
  match localeCompare (sortKey a) (sortKey b) with
  | Gt => false
  | _ => true
  end.

(** [Array.prototype.sort] is stable; so is insertion from the right. *)
Fixpoint insert_row (a : MergedRow) (rows : list MergedRow) : list MergedRow :=
  match rows with
  | [] => [a]
  | b :: rows' => if not_after a b then a :: rows else b :: insert_row a rows'
  end.

Definition sort_rows (rows : list MergedRow) : list MergedRow :=
  foldr insert_row [] rows.

(** The rows [mergeIntoMasterFile] writes, given the rows it read. *)
Definition mergeRows (existingRows newRows : list MergedRow)
    (fileType : FileType) : list MergedRow :=
  let '(existingMap, newRowsMap) :=
    foldl (merge_step fileType) (index_existing existingRows, []) newRows in
  sort_rows (add_new_rows existingMap newRowsMap).*2.

(** A failed read of any kind starts the merge from an empty ledger. *)
Definition mergeIntoMasterFile (attempt : ReadAttempt)
    (newRows : list MergedRow) (fileType : FileType) : list MergedRow :=
  let existingRows :=
    match readMasterFile attempt with
    | Returned rows => rows
    | Thrown _ => []
    end in
  mergeRows existingRows newRows fileType.

(** ** updateOrderInMasterFile *)

Fixpoint replace_first (key : string) (f : MergedRow → MergedRow)
    (rows : list MergedRow) : option (list MergedRow) :=
  match rows with
  | [] => None
  | row :: rows' =>
      if String.eqb (rowKey row) key then Some (f row :: rows')
      else cons row <$> replace_first key f rows'
  end.

(** [{ ...existing, ...updates, orderId: ..., subOrderId: ... }] *)
Definition apply_updates (updates : gmap string value) (row : MergedRow)
    : MergedRow :=
  {| orderId := orderId row;
     subOrderId := str_or (subOrderId row) (orderId row);
     props := delete "orderId" (delete "subOrderId" updates) ∪ props row |}.

Definition updateOrderInMasterFile (attempt : ReadAttempt)
    (companyId platformId oid sub : string) (updates : gmap string value)
    : Outcome (list MergedRow) :=
  match readMasterFile attempt with
  | Thrown msg => Thrown ("Failed to update order in master file: " +:+ msg)
  | Returned [] =>
      Thrown ("Failed to update order in master file: "
                +:+ "Master file not found for company " +:+ companyId
                +:+ " and platform " +:+ platformId)
  | Returned existingRows =>
      match replace_first (identityKey oid sub) (apply_updates updates)
              existingRows with
      | None =>
          Thrown ("Failed to update order in master file: Order " +:+ oid
                    +:+ " not found in master file")
      | Some rows => Returned (sort_rows rows)
      end
  end.

End Ledger.

(** ** processFile

    What one upload leaves behind: the rows of the rewritten master file and
    the counts shown to the user.  [None] stands for the early returns that
    write nothing (headers without an order id column, a file without rows).
    The copy of the uploaded file, the upload record and the inventory
    deduction touch other stores and are left out. *)
Record UploadResult : Type := mkResult {
  success : nat;
  errors : nat;
  duplicates : nat
}.

Definition processFile (isoDay : string → option string)
    (localeCompare : string → string → comparison) (attempt : ReadAttempt)
    (headers : gmap string string) (uploadType : FileType)
    (rows : list RawRow) : option (list MergedRow * UploadResult) :=
  if str_nonempty (trim (header headers "orderId")) then
    match rows with
    | [] => None
    | _ =>
        let p := processRows isoDay headers uploadType rows in
        Some (mergeIntoMasterFile localeCompare attempt (mergedRows p)
                uploadType,
              {| success := successCount p; errors := errorCount p;
                 duplicates := duplicateCount p |})
    end
  else None.

(** ** The dashboard loader *)

Module Order.
Record t : Type := mk {
  id : string;
  orderId : string;
  subOrderId : string;
  platformId : string;
  companyId : string;
  productName : value;
  sku : value;
  skuName : value;
  quantity : value;
  status : value;
  orderDate : value;
  customerName : value;
  customerState : value;
  customerCity : value;
  customerPincode : value;
  wholesalePrice : value;
  sellingPrice : value;
  shippingCharge : value;
  paymentMode : value;
  hsn : value;
  commission : value;
  tcs : value;
  tds : value;
  shipperCharge : value;
  netAmount : value;
  gstRate : value;
  invoiceNumber : value;
  invoiceDate : value;
  cgst : value;
  sgst : value;
  igst : value;
  taxableValue : value;
  invoiceAmount : value;
  refundAmount : value;
  deductionAmount : value;
  refundReason : value;
  refundDate : value;
  gstRefund : value;
  rawData : MergedRow;
  createdAt : string;
  updatedAt : string
}.
End Order.

(** [row.k || ''] and [row.k || 0] *)
Definition text_of (row : MergedRow) (k : string) : value :=
  js_or (field row k) (VStr EmptyString).
Definition number_of (row : MergedRow) (k : string) : value :=
  js_or (field row k) (VNum 0).

Definition mergedRowToOrder (row : MergedRow) (companyId platformId : string)
    : Order.t :=
  {| Order.id := orderId row +:+ "_" +:+ str_or (subOrderId row) (orderId row);
     Order.orderId := str_or (orderId row) EmptyString;
     Order.subOrderId :=
       str_or (str_or (subOrderId row) (orderId row)) EmptyString;
     Order.platformId := platformId;
     Order.companyId := companyId;
     Order.productName := text_of row "productName";
     Order.sku := text_of row "sku";
     Order.skuName := text_of row "skuName";
     Order.quantity := number_of row "quantity";
     Order.status := text_of row "status";
     Order.orderDate := text_of row "orderDate";
     Order.customerName := text_of row "customerName";
     Order.customerState := text_of row "customerState";
     Order.customerCity := text_of row "customerCity";
     Order.customerPincode := text_of row "customerPincode";
     Order.wholesalePrice := number_of row "wholesalePrice";
     Order.sellingPrice := number_of row "sellingPrice";
     Order.shippingCharge := number_of row "shippingCharge";
     Order.paymentMode := text_of row "paymentMode";
     Order.hsn := text_of row "hsn";
     Order.commission := number_of row "commission";
     Order.tcs := number_of row "tcs";
     Order.tds := number_of row "tds";
     Order.shipperCharge := number_of row "shipperCharge";
     Order.netAmount := number_of row "netAmount";
     Order.gstRate := number_of row "gstRate";
     Order.invoiceNumber := text_of row "invoiceNumber";
     Order.invoiceDate := text_of row "invoiceDate";
     Order.cgst := number_of row "cgst";
     Order.sgst := number_of row "sgst";
     Order.igst := number_of row "igst";
     Order.taxableValue := number_of row "taxableValue";
     Order.invoiceAmount := number_of row "invoiceAmount";
     Order.refundAmount := number_of row "refundAmount";
     Order.deductionAmount := number_of row "deductionAmount";
     Order.refundReason := text_of row "refundReason";
     Order.refundDate := text_of row "refundDate";
     Order.gstRefund := VNum 0;
     Order.rawData := row;
     Order.createdAt := EmptyString;
     Order.updatedAt := EmptyString |}.

Definition getMasterFilePath (companyId platformId : string) : string :=
  "companies/" +:+ companyId +:+ "/platforms/" +:+ platformId +:+ "/master.xlsx".

(** The unique master files of [loadOrdersFromMasterFiles]: those of the
    uploaded files first, then those of every platform of every company. *)
Definition masterFileMap (companies : list (string * list string))
    (uploadedFiles : list (string * string))
    : list (string * (string * string)) :=
  let from_uploads :=
    (foldl
       (fun (acc : gset string * list (string * (string * string))) file =>
          let key := file.1 +:+ "_" +:+ file.2 in
          if decide (key ∈ acc.1) then acc
          else ({[ key ]} ∪ acc.1,
                jsmap_set acc.2 (getMasterFilePath file.1 file.2) file))
       (∅, []) uploadedFiles).2 in
  foldl
    (fun m company =>
       foldl
         (fun m platform =>
            if jsmap_has m (getMasterFilePath company.1 platform) then m
            else jsmap_set m (getMasterFilePath company.1 platform)
                   (company.1, platform))
         m company.2)
    from_uploads companies.

(** The body of one load promise; a thrown read is caught and gives no
    orders, and so does a read without rows. *)
Definition loadOne (storage : string → ReadAttempt)
    (entry : string * (string * string)) : list Order.t :=
  match readMasterFile (storage entry.1) with
  | Thrown _ => []
  | Returned rows =>
      (fun row => mergedRowToOrder row entry.2.1 entry.2.2) <$>
        List.filter
          (fun row => str_nonempty (orderId row)
                      && str_nonempty (trim (orderId row)))
          rows
  end.

Definition loadOrdersFromMasterFiles (storage : string → ReadAttempt)
    (companies : list (string * list string))
    (uploadedFiles : list (string * string)) : list Order.t :=
  concat (loadOne storage <$> masterFileMap companies uploadedFiles).

(** [loadOrdersForPlatform]: one platform, and a weaker test on the order
    id than the bulk load has. *)
Definition loadOrdersForPlatform (storage : string → ReadAttempt)
    (companyId platformId : string) : list Order.t :=
  match readMasterFile (storage (getMasterFilePath companyId platformId)) with
  | Thrown _ => []
  | Returned rows =>
      (fun row => mergedRowToOrder row companyId platformId) <$>
        List.filter (fun row => str_nonempty (orderId row)) rows
  end.

(** ** getUploadedFilePath *)

Fixpoint map_chars (f : ascii → ascii) (s : string) : string :=
  match s with
  | EmptyString => EmptyString
  | String c s' => String (f c) (map_chars f s')
  end.

Definition is_lower (c : ascii) : bool :=
  ((97 <=? nat_of_ascii c) && (nat_of_ascii c <=? 122))%nat.

(** The class [a-zA-Z0-9.-] *)
Definition file_name_char (c : ascii) : bool :=
  is_lower c || is_upper c || is_digit c
  || Ascii.eqb c "."%char || Ascii.eqb c "-"%char.

(** [fileName.replace(/[^a-zA-Z0-9.-]/g, '_')] *)
Definition sanitizeFileName (fileName : string) : string :=
  map_chars (fun c => if file_name_char c then c else "_"%char) fileName.

Definition fileType_name (fileType : FileType) : string :=
  match fileType with
  | sales => "sales"
  | payment => "payment"
  | gst => "gst"
  | refund => "refund"
  end.

Definition getUploadedFilePath (companyId platformId month : string)
    (fileType : FileType) (fileName : string) : string :=
  "companies/" +:+ companyId +:+ "/platforms/" +:+ platformId +:+ "/"
    +:+ month +:+ "/" +:+ fileType_name fileType +:+ "/"
    +:+ sanitizeFileName fileName.

(** ** updateOrder (data context)

    The patch of an order reaches the master file through six fields only;
    the reload of the orders that follows a successful update changes no
    stored row and is left out. *)
Definition order_update_fields : list string :=
  [ "status"; "gstRefund"; "refundAmount"; "deductionAmount"; "refundReason";
    "refundDate" ].

(** [if (data.k !== undefined) masterFileUpdates.k = data.k] *)
Definition masterFileUpdates (data : gmap string value) : gmap string value :=
  foldl
    (fun updates k =>
       match data !! k with
       | None | Some VUndef => updates
       | Some v => <[k := v]> updates
       end)
    ∅ order_update_fields.

Definition updateOrder (localeCompare : string → string → comparison)
    (storage : string → ReadAttempt) (orders : list Order.t) (id : string)
    (data : gmap string value) : Outcome (list MergedRow) :=
  match List.find (fun o => String.eqb (Order.id o) id) orders with
  | None => Thrown ("Order with ID " +:+ id +:+ " not found")
  | Some order =>
      match updateOrderInMasterFile localeCompare
              (storage (getMasterFilePath (Order.companyId order)
                          (Order.platformId order)))
              (Order.companyId order) (Order.platformId order)
              (Order.orderId order) (Order.subOrderId order)
              (masterFileUpdates data) with
      | Returned rows => Returned rows
      | Thrown msg =>
          Thrown ("Failed to update order in master file: " +:+ msg)
      end
  end.

(** * Vocabulary of the statements *)

(** Some statement of the list [us] assigns field [f] from [newRow]. *)
Definition assigns (us : list (guard * string)) (newRow : MergedRow)
    (f : string) : bool :=
  existsb (fun u => bool_decide (u.2 = f) && passes u.1 (field newRow f)) us.

(** The rows of a batch the merge files under key [k], in batch order. *)
Definition rows_of_key (k : string) (rows : list MergedRow) : list MergedRow :=
  List.filter
    (fun r => str_nonempty (orderId r) && bool_decide (rowKey r = k)) rows.

(** The identity key as the specification words it: each identifier trimmed
    and lower-cased on its own. *)
Definition specIdentityKey (oid sub : string) : string :=
  toLowerCase (trim oid) +:+ "_" +:+ toLowerCase (trim (str_or sub oid)).

(** The progress of the row loop with one more duplicate counted. *)
Definition with_duplicate (p : Progress) : Progress :=
  {| mergedRows := mergedRows p; errorCount := errorCount p;
     successCount := successCount p;
     duplicateCount := S (duplicateCount p);
     processedKeys := processedKeys p |}.

(** A map of rows is keyed when its keys are distinct and every row sits
    under its own identity key. *)
Definition keyed (m : list (string * MergedRow)) : Prop :=
  NoDup m.*1 ∧ Forall (λ kv, rowKey kv.2 = kv.1) m.

(** Folding a list of rows, in order, into a record. *)
Definition merge_all (fileType : FileType) (first : MergedRow)
    (rest : list MergedRow) : MergedRow :=
  foldl (λ acc r, mergeRowData acc r fileType) first rest.

(** What one merge does to the value of property [f]. *)
Definition field_step (fileType : FileType) (f : string) (o : option value)
    (newRow : MergedRow) : option value :=
  if assigns (kind_updates fileType ++ always_updates) newRow f
  then Some (field newRow f)
  else match o with
       | Some v => Some v
       | None =>
           if bool_decide (f = "orderId" ∨ f = "subOrderId") then None
           else props newRow !! f
       end.

(** The order of the written rows: by [localeCompare] on the sort key, and,
    for comparison, on the identity key. *)
Definition sortKey_le (localeCompare : string → string → comparison)
    (a b : MergedRow) : Prop :=
  localeCompare (sortKey a) (sortKey b) ≠ Gt.


(** The in-batch map [m] holds, for every key, the rows of the batch with
    that key folded together in batch order. *)
Definition folded (fileType : FileType) (batch : list MergedRow)
    (m : list (string * MergedRow)) : Prop :=
  ∀ k,
    match jsmap_get m k with
    | Some row =>
        ∃ first rest,
          rows_of_key k batch = first :: rest ∧
          row = merge_all fileType first rest
    | None => rows_of_key k batch = []
    end.

(** Every row of an existing map merged with the rows of the batch that have
    its key. *)
Definition merged_with (fileType : FileType) (batch : list MergedRow)
    (kv : string * MergedRow) : string * MergedRow :=
  (kv.1, merge_all fileType kv.2 (rows_of_key kv.1 batch)).

(** The record a list of rows holds for key [k], as [findIndex] of the point
    update finds it. *)
Definition find_row (k : string) (rows : list MergedRow) : option MergedRow :=
  List.find (fun row => String.eqb (rowKey row) k) rows.

(** What the ledger holds under [k] once [batch] has been merged into
    [existingRows]: the stored record merged with the rows of the batch that
    have the key, or, for a new key, those rows folded together. *)
Definition merged_record (fileType : FileType)
    (existingRows batch : list MergedRow) (k : string) : option MergedRow :=
  match jsmap_get (index_existing existingRows) k with
  | Some existing => Some (merge_all fileType existing (rows_of_key k batch))
  | None =>
      match rows_of_key k batch with
      | [] => None
      | first :: rest => Some (merge_all fileType first rest)
      end
  end.

Fixpoint all_chars (P : ascii → bool) (s : string) : bool :=
  match s with
  | EmptyString => true
  | String c s' => P c && all_chars P s'
  end.

Definition no_slash (s : string) : bool :=
  all_chars (fun c => negb (Ascii.eqb c "/"%char)) s.

(** * Data of the examples *)

(** A host that recognises no date, and the comparison of strings byte by
    byte standing for [localeCompare]; the examples compare only strings on
    which the two orders agree. *)
Definition no_dates (value : string) : option string := None.
Definition bytewise (a b : string) : comparison := String.compare a b.

Definition sales_headers : gmap string string :=
  {[ "orderId" := "Order ID"; "productName" := "Item"; "status" := "Status" ]}.

Definition payment_headers : gmap string string :=
  {[ "orderId" := "Order ID"; "productName" := "Item";
     "netAmount" := "Net Amt" ]}.

(** The record of order A1 once a sales and a payment file have been merged,
    and the same record after the return workflow has stamped it. *)
Definition ledger_A1 : MergedRow :=
  {| orderId := "A1"; subOrderId := "A1";
     props := {[ "productName" := VStr "Widget"; "quantity" := VNum 3;
                 "netAmount" := VNum 950 ]} |}.

Definition returned_A1 : MergedRow :=
  {| orderId := "A1"; subOrderId := "A1";
     props := {[ "productName" := VStr "Widget"; "quantity" := VNum 3;
                 "status" := VStr "returned"; "gstRefund" := VNum 18 ]} |}.

(** Uploaded files, as parsed sheets. *)
Definition payment_file_empty_amount : list RawRow :=
  [ [("Order ID", "A1"); ("Net Amt", "")] ].

Definition payment_file_renamed : list RawRow :=
  [ [("Order ID", "A1"); ("Item", "Gadget"); ("Net Amt", "950.00")] ].

Definition sales_file : list RawRow :=
  [ [("Order ID", "A1"); ("Item", "Widget"); ("Status", "")] ].

Definition sales_file_twice : list RawRow :=
  [ [("Order ID", "A1"); ("Item", "Widget"); ("Status", "shipped")];
    [("Order ID", "a1"); ("Item", "Gadget"); ("Status", "delivered")] ].

(** The batch the upload page hands to the merge for a file. *)
Definition batch_of (headers : gmap string string) (uploadType : FileType)
    (file : list RawRow) : list MergedRow :=
  mergedRows (processRows no_dates headers uploadType file).

(** Two rows whose identifiers carry white space next to the separator. *)
Definition padded_row : MergedRow :=
  {| orderId := " z"; subOrderId := "z"; props := ∅ |}.
Definition digit_row : MergedRow :=
  {| orderId := "0"; subOrderId := "0"; props := ∅ |}.

(** A comparison that ties different keys: that of the bytes once the
    control characters below the tabulator, which a collation may pass over,
    are left out. *)
Definition ignoring_controls (a b : string) : comparison :=
  bytewise (filter_chars (fun c => (9 <=? nat_of_ascii c)%nat) a)
    (filter_chars (fun c => (9 <=? nat_of_ascii c)%nat) b).

Definition plain_row : MergedRow :=
  {| orderId := "A1"; subOrderId := "A1"; props := ∅ |}.
Definition marked_row : MergedRow :=
  {| orderId := String "A"%char (String "1"%char (String "001"%char ""));
     subOrderId := "A1"; props := ∅ |}.

(** A sales row and a payment row of one order that disagree on the date,
    on the product name and on a column no field is mapped to. *)
Definition dated_sale : MergedRow :=
  {| orderId := "A1"; subOrderId := "A1";
     props := {[ "orderDate" := VStr "2024-01-05";
                 "productName" := VStr "Widget";
                 "Remarks" := VStr "from the sales sheet" ]} |}.
Definition dated_payment : MergedRow :=
  {| orderId := "A1"; subOrderId := "A1";
     props := {[ "orderDate" := VStr "2024-02-01";
                 "productName" := VStr "Gadget";
                 "Remarks" := VStr "from the payment sheet" ]} |}.

(** A read refused for lack of permission. *)
Definition permission_denied : StorageError :=
  {| code := Some "storage/unauthorized";
     message := Some "User does not have permission to access the object";
     name := Some "FirebaseError";
     statusCode := Some 403%Z |}.

Definition object_not_found : StorageError :=
  {| code := Some "storage/object-not-found";
     message := Some "Object does not exist";
     name := Some "FirebaseError";
     statusCode := Some 404%Z |}.

Definition quota_exceeded : StorageError :=
  {| code := Some "storage/quota-exceeded";
     message := Some "Quota on the bucket exceeded";
     name := Some "FirebaseError";
     statusCode := Some 402%Z |}.

(** A payment row for order A1, and the patch of the return workflow. *)
Definition paid_A1 : MergedRow :=
  {| orderId := "A1"; subOrderId := "A1";
     props := {[ "paymentMode" := VStr "UPI"; "netAmount" := VNum 950 ]} |}.

Definition return_patch : gmap string value :=
  {[ "status" := VStr "returned"; "gstRefund" := VNum 18 ]}.

(** A store with the same blob at every path. *)
Definition store_of (rows : list MergedRow) (path : string) : ReadAttempt :=
  Fetched rows.

(** The rows of the specification's case-folding scenario. *)
Definition upper_row : MergedRow :=
  {| orderId := "ORD1"; subOrderId := "SUB1";
     props := {[ "productName" := VStr "Widget" ]} |}.
Definition lower_row : MergedRow :=
  {| orderId := "ord1"; subOrderId := "sub1";
     props := {[ "sku" := VStr "SKU001" ]} |}.

(** * The merge of two rows *)

Lemma assign_lookup newRow m u f :
  assign newRow m u !! f =
  if bool_decide (u.2 = f) && passes u.1 (field newRow f)
  then Some (field newRow f) else m !! f.
Proof.
  unfold assign. case_bool_decide as Hf; simpl.
  - subst f. destruct (passes _ _); [apply lookup_insert_eq | done].
  - destruct (passes _ _); [by apply lookup_insert_ne | done].
Qed.

Lemma assign_all_lookup newRow us m f :
  assign_all newRow us m !! f =
  if assigns us newRow f then Some (field newRow f) else m !! f.
Proof.
  unfold assign_all, assigns. revert m.
  induction us as [|u us IH]; intros m; simpl; [done|].
  rewrite IH, assign_lookup.
  destruct (bool_decide (u.2 = f) && passes u.1 (field newRow f)); simpl;
    by destruct (existsb _ us).
Qed.

Lemma assigns_app us vs newRow f :
  assigns (us ++ vs) newRow f = assigns us newRow f || assigns vs newRow f.
Proof. apply existsb_app. Qed.

(** The value of every property after a merge. *)
Lemma mergeRowData_lookup existing newRow fileType f :
  props (mergeRowData existing newRow fileType) !! f =
  if assigns (kind_updates fileType ++ always_updates) newRow f
  then Some (field newRow f)
  else match props existing !! f with
       | Some v => Some v
       | None =>
           if bool_decide (f = "orderId" ∨ f = "subOrderId") then None
           else props newRow !! f
       end.
Proof.
  unfold mergeRowData, add_missing. cbn [props].
  rewrite lookup_union, !assign_all_lookup, assigns_app.
  destruct (assigns (kind_updates fileType) newRow f),
    (assigns always_updates newRow f); simpl;
    try (by destruct (delete _ _ !! f)).
  destruct (props existing !! f) as [v|]; simpl.
  - by destruct (delete _ _ !! f).
  - rewrite !lookup_delete. case_bool_decide as Hid.
    + destruct Hid as [-> | ->]; repeat case_decide; done.
    + repeat case_decide; subst; try (destruct Hid; by auto).
      by destruct (props newRow !! f).
Qed.

Lemma assigns_not_elem us newRow f : f ∉ us.*2 → assigns us newRow f = false.
Proof.
  intros Hf. unfold assigns. apply (proj1 (Bool.not_true_iff_false _)).
  intros [u [Hu Hb]]%existsb_exists.
  apply andb_prop in Hb as [Heq%bool_decide_eq_true _].
  apply Hf. subst f. apply list_elem_of_fmap. exists u.
  split; [done|]. by apply list_elem_of_In.
Qed.

(** A guard lets no undefined value through. *)
Lemma passes_defined g v : passes g v = true → v ≠ VUndef.
Proof. by destruct g, v. Qed.

Lemma assigns_present us newRow f :
  assigns us newRow f = true → props newRow !! f = Some (field newRow f).
Proof.
  unfold assigns. intros [u [_ Hb]]%existsb_exists.
  apply andb_prop in Hb as [_ Hp%passes_defined].
  unfold field in *. by destruct (props newRow !! f).
Qed.

(** C1 (amended): a merge of kind [fileType] leaves unchanged every property
    the existing record already has, unless the branch of that kind or the
    closing status/gstRefund statements assign it. *)
Theorem mergeRowData_frame existing newRow fileType f :
  f ∉ updated_fields fileType →
  is_Some (props existing !! f) →
  props (mergeRowData existing newRow fileType) !! f = props existing !! f.
Proof.
  intros Hf [v Hv]. rewrite mergeRowData_lookup.
  unfold updated_fields in Hf. rewrite (assigns_not_elem _ _ _ Hf).
  by rewrite Hv.
Qed.

(** A payment row carrying a product name replaces the name a sales file
    gave: C1 as stated fails on the payment branch. *)
Lemma payment_overwrites_productName :
  props (mergeRowData ledger_A1
           (default ledger_A1
              (head (batch_of payment_headers payment payment_file_renamed)))
           payment) !! "productName" = Some (VStr "Gadget") ∧
  props ledger_A1 !! "productName" = Some (VStr "Widget").
Proof. split; by vm_compute. Qed.

Lemma mergeRowData_frame_witness :
  ("quantity" ∉ updated_fields payment) ∧
  is_Some (props returned_A1 !! "quantity") ∧
  (props (mergeRowData returned_A1 ledger_A1 payment) !! "quantity"
   = props returned_A1 !! "quantity").
Proof.
  assert (Hq : "quantity" ∉ updated_fields payment).
  { apply (bool_decide_unpack _). by vm_compute. }
  assert (Hs : is_Some (props returned_A1 !! "quantity")).
  { eexists. by vm_compute. }
  split; [exact Hq|]. split; [exact Hs|].
  exact (mergeRowData_frame returned_A1 ledger_A1 payment "quantity" Hq Hs).
Defined.

(** What a payment-kind merge never touches among the sales fields, and what
    it does overwrite. *)
Lemma payment_keeps_sales_only_fields existing newRow f :
  f ∈ ["sku"; "skuName"; "quantity"; "customerName"; "sellingPrice";
       "orderDate"] →
  is_Some (props existing !! f) →
  props (mergeRowData existing newRow payment) !! f = props existing !! f.
Proof.
  intros Hf [v Hv]. rewrite mergeRowData_lookup, Hv.
  rewrite assigns_not_elem; [done|].
  apply (bool_decide_unpack _).
  repeat (apply elem_of_cons in Hf as [-> | Hf]; [by vm_compute|]).
  by apply elem_of_nil in Hf.
Qed.

Lemma payment_overwrites_shared_fields existing newRow f :
  f ∈ ["productName"; "customerState"; "customerCity"; "customerPincode"] →
  truthy (field newRow f) = true →
  props (mergeRowData existing newRow payment) !! f = Some (field newRow f).
Proof.
  intros Hf Ht. rewrite mergeRowData_lookup.
  assert (assigns (kind_updates payment ++ always_updates) newRow f = true)
    as ->; [|done].
  repeat (apply elem_of_cons in Hf as [-> | Hf];
          [cbn; rewrite ?Ht; by rewrite ?orb_true_r|]).
  by apply elem_of_nil in Hf.
Qed.

(** * Status and gstRefund *)

(** The part of C6 the code does honour: a defined incoming status replaces
    the status, an undefined one leaves it, for every kind. *)
Lemma status_follows_defined_incoming existing newRow fileType :
  props (mergeRowData existing newRow fileType) !! "status" =
  match field newRow "status" with
  | VUndef =>
      match props existing !! "status" with
      | Some v => Some v
      | None => props newRow !! "status"
      end
  | v => Some v
  end.
Proof.
  rewrite mergeRowData_lookup, assigns_app.
  destruct fileType; cbn; destruct (field newRow "status");
    cbn; rewrite ?orb_true_r; done.
Qed.

Lemma gstRefund_follows_present_incoming existing newRow fileType :
  props (mergeRowData existing newRow fileType) !! "gstRefund" =
  match field newRow "gstRefund" with
  | VUndef | VNull =>
      match props existing !! "gstRefund" with
      | Some v => Some v
      | None => props newRow !! "gstRefund"
      end
  | v => Some v
  end.
Proof.
  rewrite mergeRowData_lookup, assigns_app.
  destruct fileType; cbn; destruct (field newRow "gstRefund");
    cbn; rewrite ?orb_true_r; done.
Qed.

(** C6, at the failing input: the record of A1 carries the status the return
    workflow stamped; a sales file with an empty status cell is merged.  The
    incoming status is the empty string, which is not a present value, and it
    replaces the stamped status; the stamped gstRefund stays. *)
Theorem empty_status_replaces_status :
  (λ r, field r "status") <$>
    batch_of sales_headers sales sales_file = [VStr ""] ∧
  (λ r, (field r "status", field r "gstRefund")) <$>
    mergeRows bytewise [returned_A1]
      (batch_of sales_headers sales sales_file) sales
  = [(VStr "", VNum 18)].
Proof. split; by vm_compute. Qed.

(** * Never overwrite with emptiness *)

(** C2, at the failing input: the record of A1 has netAmount 950; a payment
    file whose Net Amt cell is empty is merged.  The normaliser turns the
    empty cell into the number 0 and the merge writes it over 950. *)
Theorem empty_cell_replaces_netAmount :
  parseNumber "" = 0%Q ∧
  (λ r, field r "netAmount") <$>
    batch_of payment_headers payment payment_file_empty_amount = [VNum 0] ∧
  (λ r, field r "netAmount") <$>
    mergeRows bytewise [ledger_A1]
      (batch_of payment_headers payment payment_file_empty_amount) payment
  = [VNum 0].
Proof. repeat split; by vm_compute. Qed.

(** For text fields the guard is truthiness, and the empty string does not
    pass: there the existing value is kept. *)
Lemma empty_text_keeps_existing existing newRow fileType f v :
  (IfTruthy, f) ∈ kind_updates fileType →
  f ≠ "status" →
  field newRow f = VStr "" →
  props existing !! f = Some v →
  props (mergeRowData existing newRow fileType) !! f = Some v.
Proof.
  intros Hin Hst Hempty Hv. rewrite mergeRowData_lookup, Hv.
  assert (assigns (kind_updates fileType ++ always_updates) newRow f = false)
    as ->; [|done].
  unfold assigns. rewrite Hempty. clear Hempty Hv.
  destruct fileType; cbn in Hin;
    repeat (apply elem_of_cons in Hin as [Hin | Hin];
            [first [discriminate Hin
                   | injection Hin as ->; first [congruence | by vm_compute]]
            |]);
    by apply elem_of_nil in Hin.
Qed.


(** * Order of a sales and a payment merge *)

(** C9 (amended): on a property other than the two identifiers, merging a
    sales row and then a payment row gives the same value as the opposite
    order exactly when one of the two rows does not carry the property, or
    both carry the same value, or the statements of exactly one of the two
    kinds assign it from their row.  So the two orders differ exactly where
    the rows carry different values that both kinds assign, or that neither
    does. *)
Theorem sales_payment_agree_exactly salesRow paymentRow f :
  f ≠ "orderId" → f ≠ "subOrderId" →
  props (mergeRowData salesRow paymentRow payment) !! f =
  props (mergeRowData paymentRow salesRow sales) !! f
  ↔ props salesRow !! f = None ∨ props paymentRow !! f = None ∨
    props salesRow !! f = props paymentRow !! f ∨
    assigns (kind_updates payment ++ always_updates) paymentRow f
    ≠ assigns (kind_updates sales ++ always_updates) salesRow f.
Proof.
  intros Ho Hs. rewrite !mergeRowData_lookup.
  rewrite (bool_decide_eq_false_2 (f = "orderId" ∨ f = "subOrderId"))
    by (intros [?|?]; done).
  pose proof (assigns_present (kind_updates payment ++ always_updates)
                paymentRow f) as Hp.
  pose proof (assigns_present (kind_updates sales ++ always_updates)
                salesRow f) as Hq.
  destruct (assigns (kind_updates payment ++ always_updates) paymentRow f),
    (assigns (kind_updates sales ++ always_updates) salesRow f).
  - rewrite (Hp eq_refl), (Hq eq_refl). split.
    + intros Heq. right. right. left. congruence.
    + intros [?|[?|[?|?]]]; congruence.
  - rewrite (Hp eq_refl). split; [|done]. intros _. do 3 right. done.
  - rewrite (Hq eq_refl). split; [|done]. intros _. do 3 right. done.
  - destruct (props salesRow !! f) as [v|], (props paymentRow !! f) as [w|].
    + split; [|intros [?|[?|[?|?]]]; congruence].
      intros Heq. right. right. left. congruence.
    + split; [|done]. intros _. right. by left.
    + split; [|done]. intros _. by left.
    + split; [|done]. intros _. by left.
Qed.

(** The three cases on one pair of rows: the date, which the sales
    statements alone assign, is the sales date in both orders; the product
    name, which both kinds assign, and the unmapped column, which neither
    does, are those of the row merged last and first. *)
Example sales_payment_three_cases :
  (λ f, (field (mergeRowData dated_sale dated_payment payment) f,
         field (mergeRowData dated_payment dated_sale sales) f))
    <$> ["orderDate"; "productName"; "Remarks"]
  = [ (VStr "2024-01-05", VStr "2024-01-05");
      (VStr "Gadget", VStr "Widget");
      (VStr "from the sales sheet", VStr "from the payment sheet") ].
Proof. by vm_compute. Qed.

(** Through the whole ingestion: the product name of A1 depends on which of
    the sales file and the payment file came first. *)
Lemma sales_payment_order_matters :
  (λ r, field r "productName") <$>
    mergeRows bytewise
      (mergeRows bytewise [] (batch_of sales_headers sales sales_file) sales)
      (batch_of payment_headers payment payment_file_renamed) payment
  = [VStr "Gadget"] ∧
  (λ r, field r "productName") <$>
    mergeRows bytewise
      (mergeRows bytewise []
         (batch_of payment_headers payment payment_file_renamed) payment)
      (batch_of sales_headers sales sales_file) sales
  = [VStr "Widget"].
Proof. split; by vm_compute. Qed.

Lemma sales_payment_agree_exactly_witness :
  "orderDate" ≠ "orderId" ∧ "orderDate" ≠ "subOrderId" ∧
  (props (mergeRowData dated_sale dated_payment payment) !! "orderDate" =
   props (mergeRowData dated_payment dated_sale sales) !! "orderDate"
   ↔ props dated_sale !! "orderDate" = None ∨
     props dated_payment !! "orderDate" = None ∨
     props dated_sale !! "orderDate" = props dated_payment !! "orderDate" ∨
     assigns (kind_updates payment ++ always_updates) dated_payment
       "orderDate"
     ≠ assigns (kind_updates sales ++ always_updates) dated_sale
         "orderDate").
Proof.
  assert (H1 : "orderDate" ≠ "orderId") by done.
  assert (H2 : "orderDate" ≠ "subOrderId") by done.
  split; [exact H1|]. split; [exact H2|].
  exact (sales_payment_agree_exactly dated_sale dated_payment "orderDate"
           H1 H2).
Defined.

(** * Reading the ledger *)

Lemma handle_read_error_cases error :
  handle_read_error error = Returned [] ∨
  handle_read_error error = Thrown cors_message.
Proof.
  unfold handle_read_error.
  destruct (treated_as_missing error), (treated_as_cors error); auto.
Qed.

(** Nothing but the CORS message is ever thrown by a read. *)
Lemma readMasterFile_throws_only_cors attempt msg :
  readMasterFile attempt = Thrown msg → msg = cors_message.
Proof.
  destruct attempt as [rows|statusText|error]; simpl; [done| |].
  - destruct (handle_read_error_cases
                {| code := None;
                   message := Some ("Failed to fetch file: " +:+ statusText);
                   name := Some "Error"; statusCode := None |}) as [-> | ->];
      congruence.
  - destruct (handle_read_error_cases error) as [-> | ->]; congruence.
Qed.

(** The ingestion never sees a failed read: it starts from no rows. *)
Lemma mergeIntoMasterFile_after_failed_read cmp error newRows fileType :
  mergeIntoMasterFile cmp (Raised error) newRows fileType =
  mergeRows cmp [] newRows fileType.
Proof.
  unfold mergeIntoMasterFile. simpl.
  by destruct (handle_read_error_cases error) as [-> | ->].
Qed.

(** C4 (amended): every failed read that the handler does not take for a
    CORS failure, whatever its cause, is answered with the empty ledger, and
    the ingestion then merges into no rows. *)
Theorem readMasterFile_swallows_failures cmp error newRows fileType :
  treated_as_cors error = false →
  readMasterFile (Raised error) = Returned [] ∧
  mergeIntoMasterFile cmp (Raised error) newRows fileType =
  mergeRows cmp [] newRows fileType.
Proof.
  intros Hcors. split; [|apply mergeIntoMasterFile_after_failed_read].
  simpl. unfold handle_read_error. rewrite Hcors.
  by destruct (treated_as_missing error).
Qed.

(** A read refused for lack of permission is not propagated: it is answered
    like an absent blob. *)
Lemma permission_denied_reads_as_empty :
  readMasterFile (Raised permission_denied) = Returned [] ∧
  readMasterFile (Raised quota_exceeded) = Returned [] ∧
  readMasterFile (Raised object_not_found) = Returned [].
Proof. repeat split; by vm_compute. Qed.

Lemma readMasterFile_swallows_failures_witness :
  treated_as_cors quota_exceeded = false ∧
  readMasterFile (Raised quota_exceeded) = Returned [] ∧
  mergeIntoMasterFile bytewise (Raised quota_exceeded) [paid_A1] payment =
  mergeRows bytewise [] [paid_A1] payment.
Proof.
  assert (H : treated_as_cors quota_exceeded = false) by (by vm_compute).
  split; [exact H|].
  exact (readMasterFile_swallows_failures bytewise quota_exceeded [paid_A1]
           payment H).
Defined.

(** A response that is not ok is reported as a CORS failure, unless its
    status text says not found. *)
Example not_ok_responses :
  readMasterFile (NotOk "Forbidden") = Thrown cors_message ∧
  readMasterFile (NotOk "404 Not Found") = Returned [].
Proof. split; by vm_compute. Qed.

(** * The dashboard loader *)

(** C10: every order the bulk load returns has gstRefund 0, whatever the
    ledger rows hold. *)
Theorem loaded_orders_have_zero_gstRefund storage companies uploadedFiles :
  Forall (λ o, Order.gstRefund o = VNum 0)
    (loadOrdersFromMasterFiles storage companies uploadedFiles).
Proof.
  unfold loadOrdersFromMasterFiles.
  apply Forall_concat, Forall_fmap, Forall_true. intros entry.
  unfold loadOne. simpl.
  destruct (readMasterFile (storage entry.1)) as [rows|msg]; [|constructor].
  apply Forall_fmap, Forall_true. by intros row.
Qed.

Lemma mergedRowToOrder_gstRefund row companyId platformId :
  Order.gstRefund (mergedRowToOrder row companyId platformId) = VNum 0.
Proof. reflexivity. Qed.

(** The return workflow stamps gstRefund 18 on the ledger row of A1; the
    order loaded from that ledger shows 0, and only its raw data still holds
    the 18. *)
Example stamped_gstRefund_is_not_loaded :
  updateOrderInMasterFile bytewise (Fetched [ledger_A1]) "c1" "p1" "a1" ""
    return_patch
  = Returned [ {| orderId := "A1"; subOrderId := "A1";
                  props := return_patch ∪ props ledger_A1 |} ] ∧
  (λ o, (Order.status o, Order.gstRefund o,
         field (Order.rawData o) "gstRefund")) <$>
    loadOrdersFromMasterFiles
      (store_of [ {| orderId := "A1"; subOrderId := "A1";
                     props := return_patch ∪ props ledger_A1 |} ])
      [("c1", ["p1"])] []
  = [(VStr "returned", VNum 0, VNum 18)].
Proof. split; by vm_compute. Qed.

(** * The identity key *)

Lemma app_cons c (a b : string) : String c a +:+ b = String c (a +:+ b).
Proof. reflexivity. Qed.

Lemma app_empty (b : string) : "" +:+ b = b.
Proof. reflexivity. Qed.

Lemma toLowerCase_app a b :
  toLowerCase (a +:+ b) = toLowerCase a +:+ toLowerCase b.
Proof.
  induction a as [|c a IH]; [done|].
  rewrite app_cons. simpl. by rewrite IH.
Qed.

Lemma str_nonempty_toLowerCase s :
  str_nonempty (toLowerCase s) = str_nonempty s.
Proof. by destruct s. Qed.

Lemma toLowerCase_str_or a b :
  toLowerCase (str_or a b) = str_or (toLowerCase a) (toLowerCase b).
Proof. unfold str_or. rewrite str_nonempty_toLowerCase. by destruct a. Qed.

Lemma lower_char_idem c : lower_char (lower_char c) = lower_char c.
Proof. by destruct c as [[] [] [] [] [] [] [] []]. Qed.

Lemma toLowerCase_idem s : toLowerCase (toLowerCase s) = toLowerCase s.
Proof.
  induction s as [|c s IH]; [done|]. simpl. by rewrite lower_char_idem, IH.
Qed.

Lemma is_space_lower_char c :
  Ascii.is_space (lower_char c) = Ascii.is_space c.
Proof. by destruct c as [[] [] [] [] [] [] [] []]. Qed.

Lemma trimStart_toLowerCase s :
  trimStart (toLowerCase s) = toLowerCase (trimStart s).
Proof.
  induction s as [|c s IH]; [done|]. simpl.
  rewrite is_space_lower_char. by destruct (Ascii.is_space c).
Qed.

Lemma trimEnd_toLowerCase s :
  trimEnd (toLowerCase s) = toLowerCase (trimEnd s).
Proof.
  induction s as [|c s IH]; [done|]. simpl. rewrite IH.
  destruct (trimEnd s) as [|d t]; simpl; [|done].
  rewrite is_space_lower_char. by destruct (Ascii.is_space c).
Qed.

Lemma trimStart_app_sep a c b :
  Ascii.is_space c = false →
  trimStart (a +:+ String c b) = trimStart a +:+ String c b.
Proof.
  intros Hc. induction a as [|d a IH].
  - rewrite app_empty. simpl. by rewrite Hc.
  - rewrite app_cons. simpl. destruct (Ascii.is_space d); [done|].
    by rewrite app_cons.
Qed.

Lemma trimEnd_app_kept a b :
  trimEnd b ≠ "" → trimEnd (a +:+ b) = a +:+ trimEnd b.
Proof.
  intros Hb. induction a as [|d a IH]; [done|].
  rewrite !app_cons. simpl. rewrite IH.
  destruct (a +:+ trimEnd b) as [|e t] eqn:Heq; [|done].
  destruct a; [rewrite app_empty in Heq; done | by rewrite app_cons in Heq].
Qed.

Lemma trimEnd_sep c s :
  Ascii.is_space c = false → trimEnd (String c s) = String c (trimEnd s).
Proof. intros Hc. simpl. destruct (trimEnd s); [by rewrite Hc | done]. Qed.

(** Only the two outer ends of the concatenation are trimmed. *)
Lemma identityKey_parts oid sub :
  identityKey oid sub =
  toLowerCase (trimStart oid) +:+ "_"
    +:+ toLowerCase (trimEnd (str_or sub oid)).
Proof.
  unfold identityKey, trim. rewrite !toLowerCase_app.
  change (toLowerCase "_" +:+ ?x) with (String "_"%char x).
  rewrite trimStart_app_sep by done.
  rewrite trimEnd_app_kept by (by rewrite trimEnd_sep).
  by rewrite trimEnd_sep, trimStart_toLowerCase, trimEnd_toLowerCase.
Qed.

Lemma identityKey_toLowerCase oid sub :
  identityKey (toLowerCase oid) (toLowerCase sub) = identityKey oid sub.
Proof.
  unfold identityKey.
  rewrite <- toLowerCase_str_or.
  change "_" with (toLowerCase "_") at 1.
  by rewrite <- !toLowerCase_app, toLowerCase_idem.
Qed.

(** A sub order id that is one blank is trimmed away on both sides: white
    space next to the separator does not always set the two keys apart. *)
Example blank_subOrderId_agrees :
  identityKey "A1" " " = "a1_" ∧ specIdentityKey "A1" " " = "a1_".
Proof. split; by vm_compute. Qed.

Lemma identityKey_case_insensitive oid1 sub1 oid2 sub2 :
  toLowerCase oid1 = toLowerCase oid2 →
  toLowerCase sub1 = toLowerCase sub2 →
  identityKey oid1 sub1 = identityKey oid2 sub2.
Proof.
  intros Ho Hs.
  rewrite <- (identityKey_toLowerCase oid1), <- (identityKey_toLowerCase oid2).
  by rewrite Ho, Hs.
Qed.

Lemma trimEnd_trimStart_fixed s :
  trimEnd s = s → trimEnd (trimStart s) = trimStart s.
Proof.
  induction s as [|c s IH]; [done|]. simpl.
  destruct (Ascii.is_space c) eqn:Hc.
  - destruct (trimEnd s) as [|d t] eqn:Ht; [done|].
    intros [= Heq]. apply IH. by rewrite Heq.
  - intros Heq. simpl. by rewrite Hc.
Qed.

(** No white space next to the separator is enough for the key of the code
    to be the key of the specification. *)
Lemma identityKey_agrees_with_spec oid sub :
  trimEnd oid = oid →
  trimStart (str_or sub oid) = str_or sub oid →
  identityKey oid sub = specIdentityKey oid sub.
Proof.
  intros Ho Hs. rewrite identityKey_parts. unfold specIdentityKey, trim.
  by rewrite (trimEnd_trimStart_fixed _ Ho), Hs.
Qed.

Lemma string_length_app (a b : string) :
  String.length (a +:+ b) = String.length a + String.length b.
Proof.
  induction a as [|c a IH]; [done|]. rewrite app_cons. simpl. by rewrite IH.
Qed.

Lemma length_toLowerCase s : String.length (toLowerCase s) = String.length s.
Proof. induction s as [|c s IH]; [done|]. simpl. by rewrite IH. Qed.

Lemma string_app_assoc (a b c : string) : (a +:+ b) +:+ c = a +:+ (b +:+ c).
Proof.
  induction a as [|d a IH]; [done|]. rewrite !app_cons. by rewrite IH.
Qed.

Lemma string_app_nil_r (a : string) : a +:+ "" = a.
Proof. induction a as [|d a IH]; [done|]. rewrite app_cons. by rewrite IH. Qed.

(** What [trimEnd] takes away is white space at the end, and what
    [trimStart] takes away is white space at the start. *)
Lemma trimEnd_split t :
  ∃ ws, t = trimEnd t +:+ ws ∧ all_chars Ascii.is_space ws = true.
Proof.
  induction t as [|c t (ws & Ht & Hws)]; [by exists ""|]. simpl.
  destruct (trimEnd t) as [|d u] eqn:Hu.
  - rewrite app_empty in Ht. destruct (Ascii.is_space c) eqn:Hc.
    + exists (String c ws). rewrite app_empty. split; [by rewrite <- Ht|].
      simpl. by rewrite Hc.
    + exists ws. rewrite app_cons, app_empty. split; [by rewrite <- Ht|done].
  - exists ws. rewrite app_cons. split; [by rewrite <- Ht|done].
Qed.

Lemma trimStart_split s :
  ∃ ws, s = ws +:+ trimStart s ∧ all_chars Ascii.is_space ws = true.
Proof.
  induction s as [|c s (ws & Hs & Hws)]; [by exists ""|]. simpl.
  destruct (Ascii.is_space c) eqn:Hc.
  - exists (String c ws). rewrite app_cons. split; [by rewrite <- Hs|].
    simpl. by rewrite Hc.
  - by exists "".
Qed.

Lemma trimEnd_blank ws t :
  all_chars Ascii.is_space ws = true → trimEnd t = "" →
  trimEnd (ws +:+ t) = "".
Proof.
  intros Hws Ht. induction ws as [|c ws IH]; [done|].
  simpl in Hws. apply andb_prop in Hws as [Hc Hws].
  rewrite app_cons. simpl. by rewrite (IH Hws), Hc.
Qed.

(** White space left before the separator shows in the key. *)
Lemma separator_after_blanks a ws x y :
  all_chars Ascii.is_space ws = true →
  toLowerCase (a +:+ ws) +:+ "_" +:+ x = toLowerCase a +:+ "_" +:+ y →
  ws = "" ∧ x = y.
Proof.
  intros Hws Heq. rewrite toLowerCase_app, string_app_assoc in Heq.
  apply (inj (String.app (toLowerCase a))) in Heq.
  destruct ws as [|c ws].
  - rewrite app_empty in Heq. split; [done|].
    by apply (inj (String.app "_")) in Heq.
  - simpl in Hws. apply andb_prop in Hws as [Hc _].
    simpl in Heq. rewrite app_cons in Heq. injection Heq as Hsep _.
    rewrite <- is_space_lower_char, Hsep in Hc. done.
Qed.

Lemma trimEnd_trimStart_same s :
  toLowerCase (trimEnd s) = toLowerCase (trim s) → trimEnd s = trim s.
Proof.
  unfold trim. destruct (trimStart_split s) as (ws & Hs & Hws).
  set (s' := trimStart s) in *. rewrite Hs.
  destruct (trimEnd s') as [|d u] eqn:Hu.
  - by rewrite (trimEnd_blank ws s' Hws Hu).
  - rewrite trimEnd_app_kept by (by rewrite Hu). rewrite Hu.
    intros Heq. apply (f_equal String.length) in Heq.
    rewrite !length_toLowerCase, string_length_app in Heq.
    destruct ws as [|c ws]; [done|]. simpl in Heq. lia.
Qed.

(** The key of the code is the key of the specification exactly when
    trimming the order id at its start, and the sub order id at its end,
    already trims them. *)
Lemma identityKey_agrees_iff oid sub :
  identityKey oid sub = specIdentityKey oid sub ↔
  trimStart oid = trim oid ∧
  trimEnd (str_or sub oid) = trim (str_or sub oid).
Proof.
  rewrite identityKey_parts. unfold specIdentityKey. split.
  - intros Heq. unfold trim in Heq at 1.
    destruct (trimEnd_split (trimStart oid)) as (ws & Ho & Hws).
    fold (trim oid) in Ho, Heq. rewrite Ho in Heq.
    apply separator_after_blanks in Heq as [-> Heq]; [|done].
    rewrite string_app_nil_r in Ho. split; [done|].
    by apply trimEnd_trimStart_same.
  - intros [Ho Hs]. by rewrite Ho, Hs.
Qed.

(** C5 (amended): the key is the lower-cased concatenation trimmed at its two
    outer ends only; it does not see the letter case of the identifiers; and
    it is the key of the specification, each identifier trimmed on its own,
    exactly when trimming the order id at its start and the sub order id at
    its end already trims them: the order id is blank or does not end in
    white space, and the sub order id is blank or does not start with it. *)
Theorem identityKey_formula oid sub :
  rowKey {| orderId := oid; subOrderId := sub; props := ∅ |} =
    toLowerCase (trimStart oid) +:+ "_"
      +:+ toLowerCase (trimEnd (str_or sub oid)) ∧
  identityKey (toLowerCase oid) (toLowerCase sub) = identityKey oid sub ∧
  (identityKey oid sub = specIdentityKey oid sub ↔
   trimStart oid = trim oid ∧
   trimEnd (str_or sub oid) = trim (str_or sub oid)).
Proof.
  split; [apply identityKey_parts|].
  split; [apply identityKey_toLowerCase | apply identityKey_agrees_iff].
Qed.

(** An order id with a trailing blank keeps the blank inside the key: the key
    is not the one the specification states, and the order is filed apart
    from the same order without the blank. *)
Lemma inner_blank_stays_in_key :
  identityKey "A1 " "B1" = "a1 _b1" ∧
  specIdentityKey "A1 " "B1" = "a1_b1" ∧
  uniqueKey {[ "orderId" := "Order ID"; "subOrderId" := "Sub" ]}
    [("Order ID", "A1 "); ("Sub", "B1")] = "a1 _b1" ∧
  length (mergeRows bytewise []
            [ {| orderId := "A1 "; subOrderId := "B1"; props := ∅ |};
              {| orderId := "A1"; subOrderId := "B1"; props := ∅ |} ]
            sales) = 2.
Proof. repeat split; by vm_compute. Qed.

Lemma uniqueKey_is_identityKey headers row :
  uniqueKey headers row =
  identityKey (extractedOrderId headers row) (extractedSubOrderId headers row).
Proof.
  unfold uniqueKey, identityKey, extractedSubOrderId, str_or.
  destruct (getValue row (header headers "subOrderId")) as [|c s] eqn:Hs;
    simpl; [|done].
  by destruct (extractedOrderId headers row).
Qed.

(** The scenario of the specification: ORD1/SUB1 and ord1/sub1 end up in one
    record, which keeps the identifiers as first seen. *)
Example case_variants_share_a_record :
  rowKey upper_row = rowKey lower_row ∧
  (λ r, (orderId r, subOrderId r, field r "productName", field r "sku")) <$>
    mergeRows bytewise [] [upper_row; lower_row] sales
  = [("ORD1", "SUB1", VStr "Widget", VStr "SKU001")].
Proof. split; by vm_compute. Qed.

(** * Duplicates within one file *)

Section RowLoop.

Variable isoDay : string → option string.
Variable headers : gmap string string.
Variable uploadType : FileType.

Let step := processRow isoDay headers uploadType.

Lemma processRows_app rows1 rows2 :
  processRows isoDay headers uploadType (rows1 ++ rows2) =
  foldl step (processRows isoDay headers uploadType rows1) rows2.
Proof. unfold processRows. by rewrite foldl_app. Qed.

Lemma processRow_keeps_keys p row k :
  k ∈ processedKeys p → k ∈ processedKeys (step p row).
Proof.
  intros Hk. unfold step, processRow.
  destruct (hasOrderId _); [|done].
  case_decide; simpl; [done|]. set_solver.
Qed.

Lemma foldl_keeps_keys rows p k :
  k ∈ processedKeys p → k ∈ processedKeys (foldl step p rows).
Proof.
  revert p. induction rows as [|row rows IH]; intros p Hk; simpl; [done|].
  by apply IH, processRow_keeps_keys.
Qed.

Lemma processRow_records_key p row :
  hasOrderId (extractedOrderId headers row) = true →
  uniqueKey headers row ∈ processedKeys (step p row).
Proof.
  intros Hid. unfold step, processRow. rewrite Hid.
  case_decide; simpl; [done|]. set_solver.
Qed.

Lemma processRow_seen_key p row :
  hasOrderId (extractedOrderId headers row) = true →
  uniqueKey headers row ∈ processedKeys p →
  step p row = with_duplicate p.
Proof.
  intros Hid Hk. unfold step, processRow. rewrite Hid.
  by rewrite decide_True.
Qed.

Lemma processRow_with_duplicate p row :
  step (with_duplicate p) row = with_duplicate (step p row).
Proof.
  unfold step, processRow, with_duplicate. simpl.
  destruct (hasOrderId _); [|done]. by case_decide.
Qed.

Lemma foldl_with_duplicate rows p :
  foldl step (with_duplicate p) rows = with_duplicate (foldl step p rows).
Proof.
  revert p. induction rows as [|row rows IH]; intros p; simpl; [done|].
  by rewrite processRow_with_duplicate, IH.
Qed.

(** Once a key has been seen, a later row with that key only moves the
    duplicate tally. *)
Lemma seen_row_is_skipped p row after :
  hasOrderId (extractedOrderId headers row) = true →
  uniqueKey headers row ∈ processedKeys p →
  foldl step p (row :: after) = with_duplicate (foldl step p after).
Proof.
  intros Hrow Hseen. simpl.
  rewrite processRow_seen_key by done. apply foldl_with_duplicate.
Qed.

Lemma first_row_is_seen before first between :
  hasOrderId (extractedOrderId headers first) = true →
  uniqueKey headers first ∈
    processedKeys (processRows isoDay headers uploadType
                     (before ++ first :: between)).
Proof.
  intros Hfirst. rewrite processRows_app. simpl.
  by apply foldl_keeps_keys, processRow_records_key.
Qed.

Lemma processRows_after before first between rest :
  processRows isoDay headers uploadType (before ++ first :: between ++ rest) =
  foldl step (processRows isoDay headers uploadType
                (before ++ first :: between)) rest.
Proof. rewrite <- processRows_app. f_equal. by rewrite <- app_assoc. Qed.

(** C3 (amended): a row whose key an earlier row of the file already has is
    dropped by the row loop; only the duplicate tally tells that it was
    there. *)
Theorem duplicate_row_is_skipped before first between row after :
  hasOrderId (extractedOrderId headers first) = true →
  hasOrderId (extractedOrderId headers row) = true →
  uniqueKey headers row = uniqueKey headers first →
  processRows isoDay headers uploadType
    (before ++ first :: between ++ row :: after) =
  with_duplicate
    (processRows isoDay headers uploadType
       (before ++ first :: between ++ after)).
Proof.
  intros Hfirst Hrow Hkey. rewrite !processRows_after.
  apply seen_row_is_skipped; [done|].
  rewrite Hkey. by apply first_row_is_seen.
Qed.

(** The whole upload therefore writes the ledger the file without the
    duplicate gives, and reports one duplicate more. *)
Lemma duplicate_row_leaves_no_trace localeCompare attempt
    before first between row after :
  hasOrderId (extractedOrderId headers first) = true →
  hasOrderId (extractedOrderId headers row) = true →
  uniqueKey headers row = uniqueKey headers first →
  processFile isoDay localeCompare attempt headers uploadType
    (before ++ first :: between ++ row :: after) =
  (λ out, (out.1, {| success := success out.2; errors := errors out.2;
                     duplicates := S (duplicates out.2) |})) <$>
    processFile isoDay localeCompare attempt headers uploadType
      (before ++ first :: between ++ after).
Proof.
  intros Hfirst Hrow Hkey. unfold processFile.
  destruct (str_nonempty (trim (header headers "orderId"))); [|done].
  rewrite !processRows_after, seen_row_is_skipped; [| done |].
  - destruct before; by destruct between.
  - rewrite Hkey. by apply first_row_is_seen.
Qed.

End RowLoop.

(** The merge itself does fold two rows of one new key, when a batch has
    them. *)
Lemma in_batch_duplicates_are_folded cmp row1 row2 fileType :
  str_nonempty (orderId row1) = true →
  str_nonempty (orderId row2) = true →
  rowKey row2 = rowKey row1 →
  mergeRows cmp [] [row1; row2] fileType = [mergeRowData row1 row2 fileType].
Proof.
  intros H1 H2 Hkey. unfold mergeRows, index_existing. cbn [foldl].
  unfold merge_step at 2. rewrite H1. cbn [jsmap_get jsmap_set].
  unfold merge_step. rewrite H2, Hkey. cbn [jsmap_get jsmap_set].
  rewrite String.eqb_refl. by cbn.
Qed.

(** A sales file with two rows for order A1: the second row is counted and
    dropped, and the record shows the first row, not the merge of the two,
    which would show the product and the status of the second. *)
Lemma later_duplicate_is_dropped :
  duplicateCount (processRows no_dates sales_headers sales sales_file_twice)
  = 1 ∧
  (λ r, (field r "productName", field r "status")) <$>
    mergeRows bytewise [] (batch_of sales_headers sales sales_file_twice)
      sales
  = [(VStr "Widget", VStr "shipped")] ∧
  (λ r, (field r "productName", field r "status")) <$>
    mergeRows bytewise []
      (batch_of sales_headers sales (take 1 sales_file_twice)
         ++ batch_of sales_headers sales (drop 1 sales_file_twice))
      sales
  = [(VStr "Gadget", VStr "delivered")].
Proof. repeat split; by vm_compute. Qed.

Lemma duplicate_row_is_skipped_witness :
  hasOrderId (extractedOrderId sales_headers [("Order ID", "A1")]) = true ∧
  hasOrderId (extractedOrderId sales_headers [("Order ID", "a1")]) = true ∧
  uniqueKey sales_headers [("Order ID", "a1")] =
    uniqueKey sales_headers [("Order ID", "A1")] ∧
  processRows no_dates sales_headers sales
    ([] ++ [("Order ID", "A1")] :: [] ++ [("Order ID", "a1")] :: []) =
  with_duplicate
    (processRows no_dates sales_headers sales
       ([] ++ [("Order ID", "A1")] :: [] ++ [])).
Proof.
  assert (H1 : hasOrderId (extractedOrderId sales_headers
                             [("Order ID", "A1")]) = true) by (by vm_compute).
  assert (H2 : hasOrderId (extractedOrderId sales_headers
                             [("Order ID", "a1")]) = true) by (by vm_compute).
  assert (H3 : uniqueKey sales_headers [("Order ID", "a1")] =
               uniqueKey sales_headers [("Order ID", "A1")])
    by (by vm_compute).
  split; [exact H1|]. split; [exact H2|]. split; [exact H3|].
  exact (duplicate_row_is_skipped no_dates sales_headers sales []
           [("Order ID", "A1")] [] [("Order ID", "a1")] [] H1 H2 H3).
Defined.

(** * The maps of the merge *)

Section JsMap.

Context {V : Type}.
Implicit Types (m : list (string * V)) (k : string) (v : V).

Lemma jsmap_get_set_eq m k v : jsmap_get (jsmap_set m k v) k = Some v.
Proof.
  induction m as [|[k' v'] m IH]; simpl.
  - by rewrite String.eqb_refl.
  - destruct (String.eqb k' k) eqn:Hk; simpl; by rewrite Hk.
Qed.

Lemma jsmap_get_set_ne m k k' v :
  k ≠ k' → jsmap_get (jsmap_set m k v) k' = jsmap_get m k'.
Proof.
  intros Hne. induction m as [|[k0 v0] m IH]; simpl.
  - by rewrite (proj2 (String.eqb_neq k k')).
  - destruct (String.eqb k0 k) eqn:Hk; simpl; [|by rewrite IH].
    apply String.eqb_eq in Hk as ->.
    by rewrite (proj2 (String.eqb_neq k k')).
Qed.

Lemma jsmap_get_None m k : jsmap_get m k = None ↔ k ∉ m.*1.
Proof.
  induction m as [|[k' v'] m IH]; simpl.
  - split; [intros _; apply not_elem_of_nil | done].
  - rewrite not_elem_of_cons. destruct (String.eqb_spec k' k) as [->|Hne].
    + split; [done | by intros [? _]].
    + rewrite IH. split; [intros ?; split; [congruence|done] | by intros [_ ?]].
Qed.

Lemma jsmap_get_Some_elem m k v : jsmap_get m k = Some v → (k, v) ∈ m.
Proof.
  induction m as [|[k' v'] m IH]; simpl; [done|].
  destruct (String.eqb_spec k' k) as [->|Hne].
  - intros [= ->]. apply elem_of_cons. by left.
  - intros H. apply elem_of_cons. right. by apply IH.
Qed.

Lemma jsmap_get_elem m k v : NoDup m.*1 → (k, v) ∈ m → jsmap_get m k = Some v.
Proof.
  induction m as [|[k' v'] m IH]; simpl; intros Hnd Hin.
  - by apply elem_of_nil in Hin.
  - apply NoDup_cons in Hnd as [Hk' Hnd].
    apply elem_of_cons in Hin as [[= -> ->]|Hin].
    + by rewrite String.eqb_refl.
    + destruct (String.eqb_spec k' k) as [->|Hne]; [|by apply IH].
      exfalso. apply Hk'. apply list_elem_of_fmap. by exists (k, v).
Qed.

Lemma jsmap_set_present m k v :
  k ∈ m.*1 → (jsmap_set m k v).*1 = m.*1.
Proof.
  induction m as [|[k' v'] m IH]; simpl; intros Hin.
  - by apply elem_of_nil in Hin.
  - destruct (String.eqb_spec k' k) as [->|Hne]; simpl; [done|].
    apply elem_of_cons in Hin as [->|Hin]; [done|]. f_equal. by apply IH.
Qed.

Lemma jsmap_set_absent m k v : k ∉ m.*1 → jsmap_set m k v = m ++ [(k, v)].
Proof.
  induction m as [|[k' v'] m IH]; simpl; intros Hin; [done|].
  apply not_elem_of_cons in Hin as [Hne Hin].
  destruct (String.eqb_spec k' k) as [->|_]; [done|]. f_equal. by apply IH.
Qed.

Lemma jsmap_set_keys m k v x :
  x ∈ (jsmap_set m k v).*1 ↔ x = k ∨ x ∈ m.*1.
Proof.
  destruct (decide (k ∈ m.*1)) as [Hin|Hin].
  - rewrite jsmap_set_present by done. split; [auto|]. by intros [->|?].
  - rewrite jsmap_set_absent by done.
    rewrite fmap_app, elem_of_app. simpl. rewrite list_elem_of_singleton.
    tauto.
Qed.

Lemma jsmap_set_NoDup m k v : NoDup m.*1 → NoDup (jsmap_set m k v).*1.
Proof.
  intros Hnd. destruct (decide (k ∈ m.*1)) as [Hin|Hin].
  - by rewrite jsmap_set_present.
  - rewrite jsmap_set_absent, fmap_app by done.
    apply NoDup_app. split; [done|]. split; [|apply NoDup_singleton].
    intros x Hx. simpl. rewrite list_elem_of_singleton. by intros ->.
Qed.

Lemma jsmap_set_Forall (P : string * V → Prop) m k v :
  Forall P m → P (k, v) → Forall P (jsmap_set m k v).
Proof.
  intros Hm Hkv. induction Hm as [|[k' v'] m Hh Ht IH]; simpl.
  - by constructor.
  - destruct (String.eqb_spec k' k) as [->|_]; by constructor.
Qed.

Lemma jsmap_has_true m k : jsmap_has m k = true ↔ k ∈ m.*1.
Proof.
  unfold jsmap_has. destruct (jsmap_get m k) eqn:Hg.
  - split; [intros _|done].
    destruct (decide (k ∈ m.*1)) as [?|Hn]; [done|].
    apply jsmap_get_None in Hn. congruence.
  - split; [done|]. intros Hin. by apply jsmap_get_None in Hg.
Qed.

End JsMap.

Lemma str_or_idem a b : str_or (str_or a b) b = str_or a b.
Proof. unfold str_or. destruct a; simpl; [by destruct b | done]. Qed.

Lemma rowKey_mergeRowData existing newRow fileType :
  rowKey (mergeRowData existing newRow fileType) = rowKey existing.
Proof. unfold rowKey, identityKey. simpl. by rewrite str_or_idem. Qed.

Lemma keyed_nil : keyed [].
Proof. split; [apply NoDup_nil_2 | constructor]. Qed.

Lemma keyed_set m k row : keyed m → rowKey row = k → keyed (jsmap_set m k row).
Proof.
  intros [Hnd Hall] Hk. split; [by apply jsmap_set_NoDup|].
  by apply jsmap_set_Forall.
Qed.

Lemma keyed_get m k row : keyed m → jsmap_get m k = Some row → rowKey row = k.
Proof.
  intros [_ Hall] Hget%jsmap_get_Some_elem.
  by apply (proj1 (Forall_forall _ _) Hall (k, row)).
Qed.

Lemma keyed_index_existing existingRows : keyed (index_existing existingRows).
Proof.
  unfold index_existing. generalize keyed_nil.
  generalize (@nil (string * MergedRow)) as acc.
  induction existingRows as [|row rows IH]; intros acc Hacc; simpl; [done|].
  apply IH. by apply keyed_set.
Qed.

Lemma keyed_merge_step fileType maps newRow :
  keyed maps.1 → keyed maps.2 →
  keyed (merge_step fileType maps newRow).1 ∧
  keyed (merge_step fileType maps newRow).2.
Proof.
  destruct maps as [existingMap newRowsMap]. simpl. intros He Hn.
  destruct (str_nonempty (orderId newRow)); [|done].
  destruct (jsmap_get existingMap (rowKey newRow)) as [existing|] eqn:Hget.
  - simpl. split; [|done]. apply keyed_set; [done|].
    rewrite rowKey_mergeRowData. exact (keyed_get _ _ _ He Hget).
  - destruct (jsmap_get newRowsMap (rowKey newRow)) as [existingNew|] eqn:Hnew;
      simpl; (split; [done|]); apply keyed_set; try done.
    rewrite rowKey_mergeRowData. exact (keyed_get _ _ _ Hn Hnew).
Qed.

Lemma keyed_merge_steps fileType newRows maps :
  keyed maps.1 → keyed maps.2 →
  keyed (foldl (merge_step fileType) maps newRows).1 ∧
  keyed (foldl (merge_step fileType) maps newRows).2.
Proof.
  revert maps. induction newRows as [|row rows IH]; intros maps He Hn; simpl.
  - done.
  - destruct (keyed_merge_step fileType maps row He Hn). by apply IH.
Qed.

Lemma keyed_add_new_rows existingMap newRowsMap :
  keyed existingMap → Forall (λ kv, rowKey kv.2 = kv.1) newRowsMap →
  keyed (add_new_rows existingMap newRowsMap).
Proof.
  unfold add_new_rows. intros He Hn. revert existingMap He.
  induction Hn as [|[k row] rows Hk Hn IH]; intros existingMap He; simpl.
  - done.
  - apply IH. destruct (jsmap_has existingMap k); [done|].
    by apply keyed_set.
Qed.

Lemma keyed_values m : keyed m → rowKey <$> m.*2 = m.*1.
Proof.
  intros [_ Hall]. induction Hall as [|[k row] m Hk Hall IH]; [done|].
  rewrite !fmap_cons. simpl in *. by rewrite Hk, IH.
Qed.

(** * The sort of the rewrite *)

Section Sorting.

Variable localeCompare : string → string → comparison.

(** The comparison is that of a total preorder. *)
Hypothesis localeCompare_antisym :
  ∀ a b, localeCompare b a = CompOpp (localeCompare a b).

Let before (a b : MergedRow) : Prop := not_after localeCompare a b = true.

Lemma not_after_spec a b :
  not_after localeCompare a b = true ↔ sortKey_le localeCompare a b.
Proof.
  unfold not_after, sortKey_le.
  destruct (localeCompare (sortKey a) (sortKey b)); split; congruence.
Qed.

Lemma not_after_total a b :
  not_after localeCompare a b = false → not_after localeCompare b a = true.
Proof.
  unfold not_after. rewrite (localeCompare_antisym (sortKey a) (sortKey b)).
  by destruct (localeCompare (sortKey a) (sortKey b)).
Qed.

Lemma insert_row_perm a rows : insert_row localeCompare a rows ≡ₚ a :: rows.
Proof.
  induction rows as [|b rows IH]; simpl; [done|].
  destruct (not_after localeCompare a b); [done|].
  rewrite IH. apply Permutation_swap.
Qed.

Lemma sort_rows_perm rows : sort_rows localeCompare rows ≡ₚ rows.
Proof.
  induction rows as [|a rows IH]; simpl; [done|].
  by rewrite insert_row_perm, IH.
Qed.

Lemma insert_row_HdRel a b rows :
  HdRel before b rows → before b a →
  HdRel before b (insert_row localeCompare a rows).
Proof.
  intros Hhd Hba. destruct rows as [|c rows]; simpl; [by constructor|].
  destruct (not_after localeCompare a c); constructor; [done|].
  by inversion Hhd.
Qed.

Lemma insert_row_Sorted a rows :
  Sorted before rows → Sorted before (insert_row localeCompare a rows).
Proof.
  induction 1 as [|b rows Hs IH Hhd]; simpl.
  - repeat constructor.
  - destruct (not_after localeCompare a b) eqn:Hab.
    + repeat constructor; done.
    + constructor; [done|].
      apply insert_row_HdRel; [done|]. by apply not_after_total.
Qed.

Lemma sort_rows_Sorted rows : Sorted before (sort_rows localeCompare rows).
Proof.
  induction rows as [|a rows IH]; simpl; [constructor|].
  by apply insert_row_Sorted.
Qed.

(** Sorting what is sorted changes nothing. *)
Lemma sort_rows_fixed rows :
  Sorted before rows → sort_rows localeCompare rows = rows.
Proof.
  induction 1 as [|a rows Hs IH Hhd]; simpl; [done|].
  rewrite IH. destruct Hhd as [|b rows Hab]; simpl; [done|].
  unfold before in Hab. by rewrite Hab.
Qed.

Lemma sort_rows_idem rows :
  sort_rows localeCompare (sort_rows localeCompare rows) =
  sort_rows localeCompare rows.
Proof. apply sort_rows_fixed, sort_rows_Sorted. Qed.

Lemma sort_rows_StronglySorted rows :
  (∀ a b c, localeCompare a b ≠ Gt → localeCompare b c ≠ Gt →
            localeCompare a c ≠ Gt) →
  StronglySorted (sortKey_le localeCompare) (sort_rows localeCompare rows).
Proof.
  intros Htrans.
  assert (Hstrong : StronglySorted before (sort_rows localeCompare rows)).
  { apply Sorted_StronglySorted; [|apply sort_rows_Sorted].
    intros a b c Hab%not_after_spec Hbc%not_after_spec.
    apply not_after_spec. unfold sortKey_le in *. eauto. }
  induction Hstrong as [|a l Hl IH Hall]; constructor; [done|].
  eapply Forall_impl; [exact Hall|]. intros b Hb. by apply not_after_spec.
Qed.

(** The rows a rewrite persists have pairwise distinct identity keys. *)
Lemma mergeRows_distinct_keys existingRows newRows fileType :
  NoDup (rowKey <$> mergeRows localeCompare existingRows newRows fileType).
Proof.
  unfold mergeRows.
  pose proof (keyed_merge_steps fileType newRows
                (index_existing existingRows, [])
                (keyed_index_existing existingRows) keyed_nil) as [He Hn].
  destruct (foldl (merge_step fileType) (index_existing existingRows, [])
              newRows) as [existingMap newRowsMap].
  simpl in He, Hn.
  pose proof (keyed_add_new_rows existingMap newRowsMap He (proj2 Hn)) as Hk.
  rewrite sort_rows_perm, (keyed_values _ Hk). apply Hk.
Qed.





End Sorting.

(** The other rewrite, the point update of the return workflow, keeps a
    ledger with distinct keys so, and writes it in the same order. *)
Lemma rowKey_apply_updates updates row :
  rowKey (apply_updates updates row) = rowKey row.
Proof. unfold rowKey, identityKey. simpl. by rewrite str_or_idem. Qed.

Lemma replace_first_keys key updates rows rows' :
  replace_first key (apply_updates updates) rows = Some rows' →
  rowKey <$> rows' = rowKey <$> rows.
Proof.
  revert rows'. induction rows as [|row rows IH]; intros rows'; simpl; [done|].
  destruct (String.eqb (rowKey row) key).
  - intros [= <-]. by rewrite !fmap_cons, rowKey_apply_updates.
  - destruct (replace_first key (apply_updates updates) rows) as [l|];
      simpl; [|done].
    intros [= <-]. rewrite !fmap_cons. f_equal. by apply IH.
Qed.

(** A point update on a ledger that has one record per identity key writes
    a ledger that has one record per identity key, sorted as an ingestion
    sorts it. *)
Lemma update_keeps_ledger_keyed cmp attempt companyId platformId oid sub
    updates rows rows' :
  (∀ a b, cmp b a = CompOpp (cmp a b)) →
  (∀ a b c, cmp a b ≠ Gt → cmp b c ≠ Gt → cmp a c ≠ Gt) →
  readMasterFile attempt = Returned rows →
  NoDup (rowKey <$> rows) →
  updateOrderInMasterFile cmp attempt companyId platformId oid sub updates
    = Returned rows' →
  NoDup (rowKey <$> rows') ∧ StronglySorted (sortKey_le cmp) rows'.
Proof.
  intros Hanti Htrans Hread Hnd. unfold updateOrderInMasterFile.
  rewrite Hread. destruct rows as [|row rows]; [done|].
  destruct (replace_first _ _ (row :: rows)) as [l|] eqn:Hreplace; [|done].
  intros [= <-]. split.
  - rewrite sort_rows_perm. by rewrite (replace_first_keys _ _ _ _ Hreplace).
  - by apply sort_rows_StronglySorted.
Qed.

Lemma bytewise_antisym a b : bytewise b a = CompOpp (bytewise a b).
Proof. apply String.compare_antisym. Qed.

Lemma bytewise_trans a b c :
  bytewise a b ≠ Gt → bytewise b c ≠ Gt → bytewise a c ≠ Gt.
Proof.
  assert (Hle : ∀ x y, bytewise x y ≠ Gt ↔ String.le x y).
  { intros x y. unfold String.le, String.leb, bytewise.
    destruct (String.compare x y); simpl; split; (done || congruence). }
  rewrite !Hle. apply transitivity.
Qed.



Lemma bytewise_separates a b : bytewise a b = Eq → a = b.
Proof. apply String.compare_eq_iff. Qed.

(** The same three records, whatever was stored and whatever arrived, and in
    whatever order, are written in one order. *)
Example same_records_same_order :
  mergeRows bytewise [digit_row] [padded_row; plain_row] sales
  = [padded_row; digit_row; plain_row] ∧
  mergeRows bytewise [plain_row; padded_row] [digit_row] payment
  = [padded_row; digit_row; plain_row] ∧
  mergeRows bytewise [] [plain_row; digit_row; padded_row] gst
  = [padded_row; digit_row; plain_row].
Proof. repeat split; by vm_compute. Qed.

Lemma ignoring_controls_antisym a b :
  ignoring_controls b a = CompOpp (ignoring_controls a b).
Proof. apply bytewise_antisym. Qed.

Lemma ignoring_controls_trans a b c :
  ignoring_controls a b ≠ Gt → ignoring_controls b c ≠ Gt →
  ignoring_controls a c ≠ Gt.
Proof. apply bytewise_trans. Qed.

(** A comparison that ties two different keys leaves the sort, which is
    stable, nothing to tell the two records apart by: they are written in
    the order in which they arrived. *)
Example tied_keys_keep_arrival_order :
  rowKey plain_row ≠ rowKey marked_row ∧
  ignoring_controls (sortKey plain_row) (sortKey marked_row) = Eq ∧
  mergeRows ignoring_controls [] [plain_row; marked_row] sales
  = [plain_row; marked_row] ∧
  mergeRows ignoring_controls [] [marked_row; plain_row] sales
  = [marked_row; plain_row].
Proof. repeat split; by vm_compute. Qed.

(** * Folding the rows of one key *)

Lemma MergedRow_eq (a b : MergedRow) :
  orderId a = orderId b → subOrderId a = subOrderId b → props a = props b →
  a = b.
Proof. destruct a, b. simpl. by intros -> -> ->. Qed.

Section MergeAll.

Variable fileType : FileType.

Lemma merge_all_snoc first rest row :
  merge_all fileType first (rest ++ [row]) =
  mergeRowData (merge_all fileType first rest) row fileType.
Proof. unfold merge_all. by rewrite foldl_app. Qed.

Lemma orderId_merge_all first rest :
  orderId (merge_all fileType first rest) = orderId first.
Proof.
  induction rest as [|row rest IH] using rev_ind; [done|].
  by rewrite merge_all_snoc.
Qed.

Lemma subOrderId_merge_all first rest :
  str_nonempty (subOrderId first) = true →
  subOrderId (merge_all fileType first rest) = subOrderId first.
Proof.
  intros Hsub. induction rest as [|row rest IH] using rev_ind; [done|].
  rewrite merge_all_snoc. simpl. rewrite IH. unfold str_or. by rewrite Hsub.
Qed.



Lemma merge_all_lookup first rest f :
  props (merge_all fileType first rest) !! f =
  foldl (field_step fileType f) (props first !! f) rest.
Proof.
  induction rest as [|row rest IH] using rev_ind; [done|].
  rewrite merge_all_snoc, foldl_app, mergeRowData_lookup, IH. done.
Qed.

(** A fold of merges either forgets the value it starts from, or keeps it. *)
Lemma field_steps_cases f rows o :
  foldl (field_step fileType f) o rows =
    foldl (field_step fileType f) None rows ∨
  (foldl (field_step fileType f) o rows = o ∧ is_Some o).
Proof.
  induction rows as [|row rows IH] using rev_ind; simpl.
  - destruct o; [right; eauto | by left].
  - rewrite !foldl_app. simpl. destruct IH as [-> | [-> [v ->]]]; [by left|].
    unfold field_step.
    destruct (assigns _ row f); [by left | right; eauto].
Qed.

Lemma field_step_first row f :
  f ≠ "orderId" → f ≠ "subOrderId" →
  field_step fileType f None row = props row !! f.
Proof.
  intros Ho Hs. unfold field_step.
  rewrite (bool_decide_eq_false_2 (f = "orderId" ∨ f = "subOrderId"))
    by (intros [?|?]; done).
  pose proof (assigns_present (kind_updates fileType ++ always_updates)
                row f) as Hp.
  destruct (assigns _ row f); [by rewrite Hp | done].
Qed.

Lemma field_steps_identity f rows o :
  f = "orderId" ∨ f = "subOrderId" →
  foldl (field_step fileType f) o rows = o.
Proof.
  intros Hid. induction rows as [|row rows IH] using rev_ind; [done|].
  rewrite foldl_app. simpl. rewrite IH. unfold field_step.
  rewrite assigns_not_elem.
  - rewrite bool_decide_eq_true_2 by done. by destruct o.
  - apply (bool_decide_unpack _).
    destruct Hid as [-> | ->]; destruct fileType; by vm_compute.
Qed.

(** Merging the rows of a key once more into their own fold changes
    nothing. *)
Lemma merge_all_absorbs first rest :
  str_nonempty (subOrderId first) = true →
  merge_all fileType (merge_all fileType first rest) (first :: rest) =
  merge_all fileType first rest.
Proof.
  intros Hsub. apply MergedRow_eq.
  - by rewrite !orderId_merge_all.
  - rewrite !subOrderId_merge_all; try done.
    by rewrite subOrderId_merge_all.
  - apply map_eq. intros f. rewrite !merge_all_lookup.
    destruct (decide (f = "orderId" ∨ f = "subOrderId")) as [Hid|Hid].
    + by rewrite !field_steps_identity.
    + assert (Hfirst : props first !! f = field_step fileType f None first).
      { symmetry. apply field_step_first; intros ->; apply Hid; auto. }
      rewrite Hfirst.
      change (foldl (field_step fileType f)
                (field_step fileType f None first) rest)
        with (foldl (field_step fileType f) None (first :: rest)).
      by destruct (field_steps_cases f (first :: rest)
                     (foldl (field_step fileType f) None (first :: rest)))
        as [-> | [-> _]].
Qed.

End MergeAll.

(** * The two passes of a repeated ingestion *)

Section Passes.

Variable fileType : FileType.

Lemma rows_of_key_snoc k batch row :
  rows_of_key k (batch ++ [row]) =
  rows_of_key k batch ++
    (if str_nonempty (orderId row) && bool_decide (rowKey row = k)
     then [row] else []).
Proof.
  unfold rows_of_key. rewrite List.filter_app. simpl.
  by destruct (str_nonempty (orderId row) && bool_decide (rowKey row = k)).
Qed.

Lemma rows_of_key_other k batch row :
  rowKey row ≠ k → rows_of_key k (batch ++ [row]) = rows_of_key k batch.
Proof.
  intros Hne. rewrite rows_of_key_snoc, bool_decide_eq_false_2 by done.
  by rewrite andb_false_r, app_nil_r.
Qed.

Lemma rows_of_key_elem k batch row :
  row ∈ rows_of_key k batch → row ∈ batch.
Proof.
  unfold rows_of_key. rewrite !list_elem_of_In, List.filter_In. tauto.
Qed.

(** The first pass, into an empty ledger: nothing is found in the existing
    map, and the in-batch map folds the rows key by key. *)
Lemma first_pass batch :
  ∃ newRowsMap,
    foldl (merge_step fileType) ([], []) batch = ([], newRowsMap) ∧
    keyed newRowsMap ∧ folded fileType batch newRowsMap.
Proof.
  induction batch as [|row batch IH] using rev_ind.
  - exists []. split; [done|]. split; [apply keyed_nil | by intros k].
  - destruct IH as (m & Hfold & Hkeyed & Hfolded).
    rewrite foldl_app, Hfold. simpl.
    destruct (str_nonempty (orderId row)) eqn:Hid.
    + pose proof (Hfolded (rowKey row)) as Hrow.
      destruct (jsmap_get m (rowKey row)) as [existingNew|] eqn:Hget.
      * destruct Hrow as (first & rest & Hrows & ->).
        eexists. split; [done|]. split.
        { apply keyed_set; [done|].
          rewrite rowKey_mergeRowData. exact (keyed_get _ _ _ Hkeyed Hget). }
        intros k. destruct (decide (rowKey row = k)) as [<-|Hne].
        -- rewrite jsmap_get_set_eq. exists first, (rest ++ [row]).
           rewrite rows_of_key_snoc, Hid, bool_decide_eq_true_2 by done.
           simpl. by rewrite Hrows, merge_all_snoc.
        -- rewrite jsmap_get_set_ne, rows_of_key_other by done. apply Hfolded.
      * eexists. split; [done|]. split; [by apply keyed_set|].
        intros k. destruct (decide (rowKey row = k)) as [<-|Hne].
        -- rewrite jsmap_get_set_eq. exists row, [].
           rewrite rows_of_key_snoc, Hid, bool_decide_eq_true_2 by done.
           by rewrite Hrow.
        -- rewrite jsmap_get_set_ne, rows_of_key_other by done. apply Hfolded.
    + exists m. split; [done|]. split; [done|].
      intros k. rewrite rows_of_key_snoc, Hid. simpl. rewrite app_nil_r.
      apply Hfolded.
Qed.

Lemma merged_with_set existingMap existing row batch :
  NoDup existingMap.*1 →
  jsmap_get existingMap (rowKey row) = Some existing →
  str_nonempty (orderId row) = true →
  merged_with fileType batch <$>
    jsmap_set existingMap (rowKey row) (mergeRowData existing row fileType)
  = merged_with fileType (row :: batch) <$> existingMap.
Proof.
  intros Hnd Hget Hid.
  induction existingMap as [|[k v] m IH]; simpl in *; [done|].
  apply NoDup_cons in Hnd as [Hk Hnd].
  destruct (String.eqb_spec k (rowKey row)) as [->|Hne].
  - injection Hget as ->. rewrite !fmap_cons. f_equal.
    + unfold merged_with, rows_of_key. simpl.
      by rewrite Hid, bool_decide_eq_true_2.
    + apply Forall_fmap_ext_1, Forall_forall. intros [k' v'] Hin.
      unfold merged_with, rows_of_key. simpl.
      rewrite bool_decide_eq_false_2, andb_false_r; [done|].
      intros Heq. apply Hk. rewrite Heq.
      apply list_elem_of_fmap. by exists (k', v').
  - rewrite !fmap_cons. f_equal; [|by apply IH].
    unfold merged_with, rows_of_key. simpl.
    rewrite bool_decide_eq_false_2, andb_false_r; [done|]. congruence.
Qed.

(** The second pass: every row of the batch finds its key in the existing
    map, and the in-batch map stays empty. *)
Lemma second_pass batch existingMap :
  NoDup existingMap.*1 →
  (∀ row, row ∈ batch → str_nonempty (orderId row) = true →
          rowKey row ∈ existingMap.*1) →
  foldl (merge_step fileType) (existingMap, []) batch =
  (merged_with fileType batch <$> existingMap, []).
Proof.
  revert existingMap.
  induction batch as [|row batch IH]; intros existingMap Hnd Hall; simpl.
  - f_equal. symmetry. rewrite <- (list_fmap_id existingMap) at 2.
    apply Forall_fmap_ext_1, Forall_forall. by intros [k v] _.
  - destruct (str_nonempty (orderId row)) eqn:Hid.
    + destruct (jsmap_get existingMap (rowKey row)) as [existing|] eqn:Hget.
      * rewrite IH.
        -- by rewrite merged_with_set.
        -- by apply jsmap_set_NoDup.
        -- intros r Hr Hrid. apply jsmap_set_keys. right.
           apply Hall; [|done]. apply elem_of_cons. by right.
      * exfalso. apply jsmap_get_None in Hget. apply Hget.
        apply Hall; [|done]. apply elem_of_cons. by left.
    + rewrite IH.
      * f_equal. apply Forall_fmap_ext_1, Forall_forall. intros [k v] _.
        unfold merged_with, rows_of_key. simpl. by rewrite Hid.
      * done.
      * intros r Hr Hrid. apply Hall; [|done]. apply elem_of_cons. by right.
Qed.

End Passes.

Lemma add_new_rows_fresh existingMap newRowsMap :
  NoDup (existingMap ++ newRowsMap).*1 →
  add_new_rows existingMap newRowsMap = existingMap ++ newRowsMap.
Proof.
  unfold add_new_rows. revert existingMap.
  induction newRowsMap as [|[k v] m IH]; intros existingMap Hnd; simpl.
  - by rewrite app_nil_r.
  - assert (Hk : k ∉ existingMap.*1).
    { rewrite fmap_app in Hnd. apply NoDup_app in Hnd as (_ & Hdisj & _).
      intros Hin. apply (Hdisj k Hin). rewrite fmap_cons. apply elem_of_cons.
      by left. }
    assert (jsmap_has existingMap k = false) as ->.
    { apply (proj1 (Bool.not_true_iff_false _)). by rewrite jsmap_has_true. }
    rewrite jsmap_set_absent by done.
    rewrite IH; [by rewrite <- app_assoc|]. by rewrite <- app_assoc.
Qed.

Lemma index_existing_distinct existingRows :
  NoDup (rowKey <$> existingRows) →
  index_existing existingRows = (λ row, (rowKey row, row)) <$> existingRows.
Proof.
  unfold index_existing.
  assert (Hgen : ∀ acc : list (string * MergedRow),
             NoDup (acc.*1 ++ (rowKey <$> existingRows)) →
             foldl (λ m row, jsmap_set m (rowKey row) row) acc existingRows =
             acc ++ ((λ row, (rowKey row, row)) <$> existingRows)).
  { induction existingRows as [|row rows IH]; intros acc Hnd; simpl.
    - by rewrite app_nil_r.
    - assert (Hk : rowKey row ∉ acc.*1).
      { apply NoDup_app in Hnd as (_ & Hdisj & _).
        intros Hin. apply (Hdisj _ Hin). rewrite fmap_cons.
        apply elem_of_cons. by left. }
      rewrite jsmap_set_absent by done.
      rewrite IH; [by rewrite <- app_assoc|].
      rewrite fmap_app. simpl. rewrite <- app_assoc. exact Hnd. }
  intros Hnd. by rewrite (Hgen []).
Qed.

(** * Idempotence *)

Section Idempotence.

Variable localeCompare : string → string → comparison.

Hypothesis localeCompare_antisym :
  ∀ a b, localeCompare b a = CompOpp (localeCompare a b).

(** Merging a batch into what the merge of that batch into no rows gave
    changes nothing. *)
Lemma mergeRows_absorbs_batch batch fileType :
  Forall (λ row, str_nonempty (subOrderId row) = true) batch →
  mergeRows localeCompare (mergeRows localeCompare [] batch fileType)
    batch fileType
  = mergeRows localeCompare [] batch fileType.
Proof.
  intros Hsub.
  pose proof (mergeRows_distinct_keys localeCompare [] batch fileType) as Hnd.
  destruct (first_pass fileType batch) as (m & Hfirst & Hkeyed & Hfolded).
  assert (Hone : mergeRows localeCompare [] batch fileType =
                   sort_rows localeCompare m.*2).
  { unfold mergeRows, index_existing. simpl. rewrite Hfirst.
    rewrite add_new_rows_fresh; [done|]. apply Hkeyed. }
  set (once := mergeRows localeCompare [] batch fileType) in *.
  assert (Hin : ∀ row, row ∈ once →
            ∃ first rest,
              rows_of_key (rowKey row) batch = first :: rest ∧
              row = merge_all fileType first rest).
  { intros row Hrow. rewrite Hone, sort_rows_perm in Hrow.
    apply list_elem_of_fmap in Hrow as ([k row'] & -> & Hrow).
    pose proof (Hfolded k) as Hk.
    rewrite (jsmap_get_elem _ _ _ (proj1 Hkeyed) Hrow) in Hk.
    simpl. by rewrite (keyed_get _ _ _ Hkeyed
                         (jsmap_get_elem _ _ _ (proj1 Hkeyed) Hrow)). }
  unfold mergeRows at 1.
  rewrite index_existing_distinct by done.
  rewrite second_pass.
  - unfold add_new_rows. simpl.
    rewrite <- !list_fmap_compose.
    assert (Hsame : snd ∘ merged_with fileType batch
                      ∘ (λ row, (rowKey row, row)) <$> once = once).
    { rewrite <- (list_fmap_id once) at 2.
      apply Forall_fmap_ext_1, Forall_forall. intros row Hrow.
      destruct (Hin row Hrow) as (first & rest & Hrows & Heq).
      unfold merged_with. simpl. rewrite Hrows. rewrite Heq at 1 2.
      apply merge_all_absorbs.
      apply (proj1 (Forall_forall _ _) Hsub).
      apply (rows_of_key_elem (rowKey row)). rewrite Hrows.
      apply elem_of_cons. by left. }
    rewrite Hsame, Hone. by apply sort_rows_idem.
  - by rewrite <- list_fmap_compose.
  - intros row Hrow Hid. rewrite <- list_fmap_compose.
    change (fst ∘ (λ row0, (rowKey row0, row0))) with rowKey.
    rewrite Hone, sort_rows_perm, (keyed_values _ Hkeyed).
    destruct (decide (rowKey row ∈ m.*1)) as [?|Hnot]; [done|].
    apply jsmap_get_None in Hnot. pose proof (Hfolded (rowKey row)) as Hk.
    rewrite Hnot in Hk. exfalso.
    assert (Hmem : row ∈ rows_of_key (rowKey row) batch).
    { unfold rows_of_key. apply list_elem_of_In, List.filter_In.
      split; [by apply list_elem_of_In|].
      by rewrite Hid, bool_decide_eq_true_2. }
    rewrite Hk in Hmem. by apply elem_of_nil in Hmem.
Qed.

(** C8: for a batch of normalised rows of one kind, those in which the sub
    order id has been defaulted and is not empty, ingesting the batch into
    an empty ledger and then ingesting it again, on top of what the first
    ingestion wrote, writes the same rows as the first ingestion. *)
Theorem reingesting_is_idempotent attempt batch fileType :
  readMasterFile attempt = Returned [] →
  Forall (λ row, str_nonempty (subOrderId row) = true) batch →
  mergeIntoMasterFile localeCompare
    (Fetched (mergeIntoMasterFile localeCompare attempt batch fileType))
    batch fileType
  = mergeIntoMasterFile localeCompare attempt batch fileType.
Proof.
  intros Hempty Hsub. unfold mergeIntoMasterFile. rewrite Hempty. simpl.
  by apply mergeRows_absorbs_batch.
Qed.

End Idempotence.

Lemma reingesting_is_idempotent_witness :
  (∀ a b, bytewise b a = CompOpp (bytewise a b)) ∧
  readMasterFile (Raised object_not_found) = Returned [] ∧
  Forall (λ row, str_nonempty (subOrderId row) = true)
    [upper_row; paid_A1; lower_row] ∧
  mergeIntoMasterFile bytewise
    (Fetched (mergeIntoMasterFile bytewise (Raised object_not_found)
                [upper_row; paid_A1; lower_row] sales))
    [upper_row; paid_A1; lower_row] sales
  = mergeIntoMasterFile bytewise (Raised object_not_found)
      [upper_row; paid_A1; lower_row] sales.
Proof.
  assert (H0 : readMasterFile (Raised object_not_found) = Returned [])
    by (by vm_compute).
  assert (H : Forall (λ row, str_nonempty (subOrderId row) = true)
                [upper_row; paid_A1; lower_row])
    by (repeat constructor).
  split; [exact bytewise_antisym|]. split; [exact H0|]. split; [exact H|].
  exact (reingesting_is_idempotent bytewise bytewise_antisym
           (Raised object_not_found) [upper_row; paid_A1; lower_row] sales
           H0 H).
Defined.

(** The rows the upload page emits are normalised in that sense, as long as
    the sheet has no column that is itself called subOrderId or orderId. *)
Lemma processRows_subOrderId isoDay headers uploadType rows :
  Forall (λ row, raw_get row "orderId" = None
                 ∧ raw_get row "subOrderId" = None) rows →
  Forall (λ row, str_nonempty (subOrderId row) = true)
    (mergedRows (processRows isoDay headers uploadType rows)).
Proof.
  unfold processRows. intros Hrows.
  assert (Hgen : ∀ p,
             Forall (λ row, str_nonempty (subOrderId row) = true)
               (mergedRows p) →
             Forall (λ row, str_nonempty (subOrderId row) = true)
               (mergedRows
                  (foldl (processRow isoDay headers uploadType) p rows))).
  { induction Hrows as [|row rows [Ho Hs] Hrows IH]; intros p Hp; simpl.
    - done.
    - apply IH. unfold processRow.
      destruct (hasOrderId (extractedOrderId headers row)) eqn:Hid; [|done].
      case_decide; simpl; [done|].
      apply Forall_app. split; [done|]. constructor; [|constructor].
      simpl. rewrite Hs. simpl.
      unfold extractedSubOrderId, str_or.
      destruct (getValue row (header headers "subOrderId")); simpl; [|done].
      unfold hasOrderId in Hid. by apply andb_prop in Hid as [-> _]. }
  apply Hgen. constructor.
Qed.

Lemma reingesting_a_file_is_idempotent isoDay cmp headers uploadType rows :
  (∀ a b, cmp b a = CompOpp (cmp a b)) →
  Forall (λ row, raw_get row "orderId" = None
                 ∧ raw_get row "subOrderId" = None) rows →
  let batch := mergedRows (processRows isoDay headers uploadType rows) in
  mergeRows cmp (mergeRows cmp [] batch uploadType) batch uploadType
  = mergeRows cmp [] batch uploadType.
Proof.
  intros Hcmp Hrows batch.
  by apply mergeRows_absorbs_batch, processRows_subOrderId.
Qed.

(** Without the defaulting the second merge would not be silent: it fills
    in the sub order id the first merge stored empty. *)
Example empty_subOrderId_is_filled_later :
  subOrderId <$>
    mergeRows bytewise []
      [ {| orderId := "A1"; subOrderId := ""; props := ∅ |} ] sales
  = [""] ∧
  subOrderId <$>
    mergeRows bytewise
      (mergeRows bytewise []
         [ {| orderId := "A1"; subOrderId := ""; props := ∅ |} ] sales)
      [ {| orderId := "A1"; subOrderId := ""; props := ∅ |} ] sales
  = ["A1"].
Proof. split; by vm_compute. Qed.

(** * More on the merge of two rows *)

Lemma assigns_elem us newRow f : assigns us newRow f = true → f ∈ us.*2.
Proof.
  intros Ha. destruct (decide (f ∈ us.*2)) as [?|Hn]; [done|].
  rewrite (assigns_not_elem _ _ _ Hn) in Ha. done.
Qed.

Lemma identity_not_assigned fileType f :
  f = "orderId" ∨ f = "subOrderId" → f ∉ updated_fields fileType.
Proof.
  intros Hid. apply (bool_decide_unpack _).
  destruct Hid as [-> | ->]; destruct fileType; by vm_compute.
Qed.

(** A merge drops no property: the merged record has the properties of the
    existing record and those of the incoming row, the two identity keys
    apart. *)
Theorem mergeRowData_dom existing newRow fileType :
  dom (props (mergeRowData existing newRow fileType)) =
  dom (props existing) ∪ (dom (props newRow) ∖ {[ "orderId"; "subOrderId" ]}).
Proof.
  apply set_eq. intros f.
  rewrite elem_of_union, elem_of_difference, !elem_of_dom,
    mergeRowData_lookup.
  pose proof (assigns_present (kind_updates fileType ++ always_updates)
                newRow f) as Hp.
  pose proof (assigns_elem (kind_updates fileType ++ always_updates)
                newRow f) as He.
  destruct (assigns _ newRow f).
  - split; [intros _|eauto]. right. rewrite Hp by done. split; [eauto|].
    intros Hid. apply (identity_not_assigned fileType f); [|by apply He].
    set_solver.
  - destruct (props existing !! f) as [v|]; [split; eauto|].
    case_bool_decide as Hid.
    + split; [by intros [? ?]|]. intros [[? ?]|[_ Hn]]; [done|].
      exfalso. apply Hn. set_solver.
    + split; [intros Hn; right; split; [done|set_solver]|].
      by intros [[? ?]|[? _]].
Qed.

(** A merge invents no value: what the merged record holds for a property,
    one of the two rows held. *)
Theorem mergeRowData_value_origin existing newRow fileType f v :
  props (mergeRowData existing newRow fileType) !! f = Some v →
  props existing !! f = Some v ∨ props newRow !! f = Some v.
Proof.
  rewrite mergeRowData_lookup.
  pose proof (assigns_present (kind_updates fileType ++ always_updates)
                newRow f) as Hp.
  destruct (assigns _ newRow f).
  - intros [= <-]. right. by apply Hp.
  - destruct (props existing !! f); [by left|].
    case_bool_decide; [done | by right].
Qed.

Lemma mergeRowData_value_origin_witness :
  props (mergeRowData returned_A1 paid_A1 payment) !! "netAmount"
    = Some (VNum 950) ∧
  (props returned_A1 !! "netAmount" = Some (VNum 950) ∨
   props paid_A1 !! "netAmount" = Some (VNum 950)).
Proof.
  assert (H : props (mergeRowData returned_A1 paid_A1 payment) !! "netAmount"
              = Some (VNum 950)) by (by vm_compute).
  split; [exact H|].
  exact (mergeRowData_value_origin returned_A1 paid_A1 payment "netAmount"
           (VNum 950) H).
Defined.

(** Merging the same row a second time changes nothing. *)
Theorem mergeRowData_idempotent existing newRow fileType :
  mergeRowData (mergeRowData existing newRow fileType) newRow fileType =
  mergeRowData existing newRow fileType.
Proof.
  apply MergedRow_eq; [done | simpl; by rewrite str_or_idem |].
  apply map_eq. intros f.
  rewrite (mergeRowData_lookup (mergeRowData existing newRow fileType)).
  rewrite mergeRowData_lookup.
  destruct (assigns _ newRow f); [done|].
  destruct (props existing !! f); [done|].
  case_bool_decide; [done|]. by destruct (props newRow !! f).
Qed.

(** On a field its statements assign, the incoming value wins as soon as it
    passes the guard of one of them. *)
Theorem mergeRowData_assigned_field_wins existing newRow fileType g f :
  (g, f) ∈ kind_updates fileType ++ always_updates →
  passes g (field newRow f) = true →
  props (mergeRowData existing newRow fileType) !! f = Some (field newRow f).
Proof.
  intros Hin Hp. rewrite mergeRowData_lookup.
  assert (assigns (kind_updates fileType ++ always_updates) newRow f = true)
    as ->; [|done].
  apply existsb_exists. exists (g, f). split; [by apply list_elem_of_In|].
  simpl. by rewrite bool_decide_eq_true_2, Hp.
Qed.

Lemma mergeRowData_assigned_field_wins_witness :
  ((IfNotNullish, "netAmount") ∈ kind_updates payment ++ always_updates) ∧
  passes IfNotNullish (field paid_A1 "netAmount") = true ∧
  props (mergeRowData ledger_A1 paid_A1 payment) !! "netAmount"
  = Some (field paid_A1 "netAmount").
Proof.
  assert (H1 : (IfNotNullish, "netAmount")
               ∈ kind_updates payment ++ always_updates).
  { apply (list_elem_of_In _ _). cbn. tauto. }
  assert (H2 : passes IfNotNullish (field paid_A1 "netAmount") = true)
    by (by vm_compute).
  split; [exact H1|]. split; [exact H2|].
  exact (mergeRowData_assigned_field_wins ledger_A1 paid_A1 payment
           IfNotNullish "netAmount" H1 H2).
Defined.

(** On every other property the first writer wins: the merge is the union
    of the two rows with the existing record in front.  This is what keeps
    the unmapped columns of the first upload. *)
Theorem mergeRowData_unassigned_is_union existing newRow fileType f :
  f ∉ updated_fields fileType →
  f ≠ "orderId" → f ≠ "subOrderId" →
  props (mergeRowData existing newRow fileType) !! f =
  (props existing ∪ props newRow) !! f.
Proof.
  intros Hf Ho Hs. rewrite mergeRowData_lookup, lookup_union.
  unfold updated_fields in Hf. rewrite (assigns_not_elem _ _ _ Hf).
  rewrite (bool_decide_eq_false_2 (f = "orderId" ∨ f = "subOrderId"))
    by (intros [?|?]; done).
  destruct (props existing !! f), (props newRow !! f); done.
Qed.

Lemma mergeRowData_unassigned_is_union_witness :
  ("paymentMode" ∉ updated_fields sales) ∧
  "paymentMode" ≠ "orderId" ∧ "paymentMode" ≠ "subOrderId" ∧
  props (mergeRowData returned_A1 paid_A1 sales) !! "paymentMode" =
  (props returned_A1 ∪ props paid_A1) !! "paymentMode".
Proof.
  assert (H1 : "paymentMode" ∉ updated_fields sales).
  { apply (bool_decide_unpack _). by vm_compute. }
  assert (H2 : "paymentMode" ≠ "orderId") by done.
  assert (H3 : "paymentMode" ≠ "subOrderId") by done.
  split; [exact H1|]. split; [exact H2|]. split; [exact H3|].
  exact (mergeRowData_unassigned_is_union returned_A1 paid_A1 sales
           "paymentMode" H1 H2 H3).
Defined.

(** * The ledger after a merge, key by key *)

Lemma find_row_elem k rows row :
  find_row k rows = Some row → row ∈ rows ∧ rowKey row = k.
Proof.
  unfold find_row. intros [Hin Hk%String.eqb_eq]%List.find_some.
  split; [by apply list_elem_of_In | done].
Qed.

Lemma find_row_None k rows : find_row k rows = None ↔ k ∉ rowKey <$> rows.
Proof.
  unfold find_row. induction rows as [|row rows IH].
  - split; [intros _; apply not_elem_of_nil | done].
  - rewrite fmap_cons, not_elem_of_cons. simpl.
    destruct (String.eqb_spec (rowKey row) k) as [Hk|Hk].
    + split; [done | by intros [? _]].
    + rewrite IH. split; [by intros ? | by intros [_ ?]].
Qed.

Lemma find_row_unique rows row :
  NoDup (rowKey <$> rows) → row ∈ rows →
  find_row (rowKey row) rows = Some row.
Proof.
  unfold find_row. induction rows as [|r rows IH]; intros Hnd Hin.
  - by apply elem_of_nil in Hin.
  - rewrite fmap_cons in Hnd. apply NoDup_cons in Hnd as [Hr Hnd]. simpl.
    apply elem_of_cons in Hin as [->|Hin].
    + by rewrite String.eqb_refl.
    + destruct (String.eqb_spec (rowKey r) (rowKey row)) as [Hk|Hk].
      * exfalso. apply Hr. rewrite Hk. by apply list_elem_of_fmap_2.
      * by apply IH.
Qed.

Lemma find_row_perm k rows rows' :
  NoDup (rowKey <$> rows) → rows ≡ₚ rows' →
  find_row k rows = find_row k rows'.
Proof.
  intros Hnd Hperm.
  assert (Hnd' : NoDup (rowKey <$> rows')) by (by rewrite <- Hperm).
  destruct (find_row k rows) as [row|] eqn:Hfind.
  - apply find_row_elem in Hfind as [Hin <-]. symmetry.
    apply find_row_unique; [done|]. by rewrite <- Hperm.
  - symmetry. apply find_row_None. rewrite <- Hperm.
    by apply find_row_None.
Qed.

Lemma find_row_keyed k m : keyed m → find_row k m.*2 = jsmap_get m k.
Proof.
  intros [_ Hall]. unfold find_row.
  induction Hall as [|[k0 row] m Hk Hall IH]; [done|].
  rewrite fmap_cons. simpl in *. rewrite Hk.
  by destruct (String.eqb k0 k).
Qed.

Lemma jsmap_get_app {V : Type} (m1 m2 : list (string * V)) k :
  jsmap_get (m1 ++ m2) k =
  match jsmap_get m1 k with
  | Some v => Some v
  | None => jsmap_get m2 k
  end.
Proof.
  induction m1 as [|[k0 v0] m1 IH]; simpl; [done|].
  by destruct (String.eqb k0 k).
Qed.

Lemma rowKey_merge_all fileType first rest :
  rowKey (merge_all fileType first rest) = rowKey first.
Proof.
  induction rest as [|row rest IH] using rev_ind; [done|].
  by rewrite merge_all_snoc, rowKey_mergeRowData.
Qed.

Lemma keyed_app m1 m2 :
  keyed m1 → keyed m2 → (∀ k, k ∈ m1.*1 → k ∉ m2.*1) → keyed (m1 ++ m2).
Proof.
  intros [Hnd1 Hall1] [Hnd2 Hall2] Hdisj. split.
  - rewrite fmap_app. apply NoDup_app. auto.
  - by apply Forall_app.
Qed.

Section ByKey.

Variable fileType : FileType.
Variable existingRows : list MergedRow.

(** What the two maps hold while the batch is being merged. *)
Lemma merge_steps_by_key batch :
  ∃ existingMap newRowsMap,
    foldl (merge_step fileType) (index_existing existingRows, []) batch
      = (existingMap, newRowsMap) ∧
    keyed existingMap ∧ keyed newRowsMap ∧
    (∀ k, jsmap_get existingMap k =
          (λ existing, merge_all fileType existing (rows_of_key k batch))
            <$> jsmap_get (index_existing existingRows) k) ∧
    (∀ k, jsmap_get newRowsMap k =
          match jsmap_get (index_existing existingRows) k with
          | Some _ => None
          | None =>
              match rows_of_key k batch with
              | [] => None
              | first :: rest => Some (merge_all fileType first rest)
              end
          end).
Proof.
  induction batch as [|row batch IH] using rev_ind.
  - exists (index_existing existingRows), []. split; [done|].
    split; [apply keyed_index_existing|]. split; [apply keyed_nil|].
    split; intros k; simpl.
    + by destruct (jsmap_get (index_existing existingRows) k).
    + by destruct (jsmap_get (index_existing existingRows) k).
  - destruct IH as (em & nm & Hfold & Hke & Hkn & Hem & Hnm).
    rewrite foldl_app, Hfold. simpl.
    destruct (str_nonempty (orderId row)) eqn:Hid.
    + pose proof (Hem (rowKey row)) as Hrow.
      destruct (jsmap_get (index_existing existingRows) (rowKey row))
        as [stored|] eqn:Hstored; simpl in Hrow; rewrite Hrow.
      * eexists _, _. split; [done|].
        split.
        { apply keyed_set; [done|].
          by rewrite rowKey_mergeRowData, rowKey_merge_all,
            (keyed_get _ _ _ (keyed_index_existing existingRows) Hstored). }
        split; [done|]. split; intros k.
        -- destruct (decide (rowKey row = k)) as [<-|Hne].
           ++ rewrite jsmap_get_set_eq, Hstored. simpl.
              rewrite rows_of_key_snoc, Hid, bool_decide_eq_true_2 by done.
              simpl. by rewrite merge_all_snoc.
           ++ rewrite jsmap_get_set_ne, rows_of_key_other by done. apply Hem.
        -- destruct (decide (rowKey row = k)) as [<-|Hne].
           ++ rewrite Hstored. specialize (Hnm (rowKey row)).
              by rewrite Hstored in Hnm.
           ++ rewrite rows_of_key_other by done. apply Hnm.
      * pose proof (Hnm (rowKey row)) as Hnew. rewrite Hstored in Hnew.
        destruct (rows_of_key (rowKey row) batch) as [|first rest] eqn:Hrows;
          rewrite Hnew.
        -- eexists _, _. split; [done|]. split; [done|].
           split; [by apply keyed_set|]. split; intros k.
           ++ destruct (decide (rowKey row = k)) as [<-|Hne].
              ** by rewrite Hrow, Hstored.
              ** rewrite rows_of_key_other by done. apply Hem.
           ++ destruct (decide (rowKey row = k)) as [<-|Hne].
              ** rewrite jsmap_get_set_eq, Hstored, rows_of_key_snoc, Hid,
                   bool_decide_eq_true_2 by done.
                 simpl. by rewrite Hrows.
              ** rewrite jsmap_get_set_ne, rows_of_key_other by done.
                 apply Hnm.
        -- eexists _, _. split; [done|]. split; [done|].
           split.
           { apply keyed_set; [done|].
             rewrite rowKey_mergeRowData, rowKey_merge_all.
             assert (Hin : first ∈ rows_of_key (rowKey row) batch)
               by (rewrite Hrows; apply elem_of_cons; by left).
             unfold rows_of_key in Hin.
             apply list_elem_of_In, List.filter_In in Hin as [_ Hin].
             apply andb_prop in Hin as [_ Hin].
             by apply bool_decide_eq_true in Hin. }
           split; intros k.
           ++ destruct (decide (rowKey row = k)) as [<-|Hne].
              ** by rewrite Hrow, Hstored.
              ** rewrite rows_of_key_other by done. apply Hem.
           ++ destruct (decide (rowKey row = k)) as [<-|Hne].
              ** rewrite jsmap_get_set_eq, Hstored, rows_of_key_snoc, Hid,
                   bool_decide_eq_true_2 by done.
                 rewrite Hrows. cbn [app andb]. by rewrite merge_all_snoc.
              ** rewrite jsmap_get_set_ne, rows_of_key_other by done.
                 apply Hnm.
    + exists em, nm. split; [done|]. split; [done|]. split; [done|].
      split; intros k; rewrite rows_of_key_snoc, Hid; simpl;
        rewrite app_nil_r; [apply Hem | apply Hnm].
Qed.

(** The record of every key after the merge. *)
Lemma find_row_mergeRows cmp batch k :
  find_row k (mergeRows cmp existingRows batch fileType) =
  merged_record fileType existingRows batch k.
Proof.
  pose proof (mergeRows_distinct_keys cmp existingRows batch fileType) as Hnd.
  revert Hnd. unfold mergeRows, merged_record.
  destruct (merge_steps_by_key batch)
    as (em & nm & -> & Hke & Hkn & Hem & Hnm).
  assert (Hdisj : ∀ k, k ∈ em.*1 → k ∉ nm.*1).
  { intros k' Hin. apply jsmap_get_None. rewrite Hnm.
    destruct (jsmap_get (index_existing existingRows) k') eqn:Hs; [done|].
    exfalso. assert (Hnone : jsmap_get em k' = None) by (by rewrite Hem, Hs).
    by apply jsmap_get_None in Hnone. }
  rewrite add_new_rows_fresh
    by (rewrite fmap_app; apply NoDup_app;
        split; [apply Hke | split; [done | apply Hkn]]).
  intros Hnd.
  rewrite (find_row_perm k _ _ Hnd (sort_rows_perm cmp _)).
  rewrite find_row_keyed by (by apply keyed_app).
  rewrite jsmap_get_app, Hem, Hnm.
  by destruct (jsmap_get (index_existing existingRows) k).
Qed.

End ByKey.

Lemma jsmap_get_indexed rows k :
  jsmap_get ((λ row, (rowKey row, row)) <$> rows) k = find_row k rows.
Proof.
  unfold find_row. induction rows as [|row rows IH]; [done|].
  rewrite fmap_cons. simpl. by rewrite IH.
Qed.

Lemma index_existing_keys existingRows k :
  k ∈ (index_existing existingRows).*1 ↔ k ∈ rowKey <$> existingRows.
Proof.
  unfold index_existing.
  assert (Hgen : ∀ acc : list (string * MergedRow),
             k ∈ (foldl (λ m row, jsmap_set m (rowKey row) row) acc
                    existingRows).*1
             ↔ k ∈ acc.*1 ∨ k ∈ rowKey <$> existingRows).
  { induction existingRows as [|row rows IH]; intros acc.
    - simpl. split; [auto|]. intros [?|Hin]; [done|].
      by apply elem_of_nil in Hin.
    - cbn [foldl]. rewrite IH, jsmap_set_keys, fmap_cons, elem_of_cons.
      tauto. }
  rewrite Hgen. split; [|auto]. intros [Hin|?]; [|done].
  by apply elem_of_nil in Hin.
Qed.

Lemma rows_of_key_nil k batch :
  rows_of_key k batch = [] ↔
  ∀ row, row ∈ batch → str_nonempty (orderId row) = true → rowKey row ≠ k.
Proof.
  unfold rows_of_key. split.
  - intros Hnil row Hin Hid Hk.
    assert (Hmem : In row (List.filter
                     (λ r, str_nonempty (orderId r)
                           && bool_decide (rowKey r = k)) batch)).
    { apply List.filter_In. split; [by apply list_elem_of_In|].
      by rewrite Hid, bool_decide_eq_true_2. }
    by rewrite Hnil in Hmem.
  - intros Hall. induction batch as [|row batch IH]; [done|]. simpl.
    destruct (str_nonempty (orderId row)) eqn:Hid; simpl.
    + rewrite bool_decide_eq_false_2.
      * apply IH. intros r Hr. apply Hall. apply elem_of_cons. by right.
      * apply Hall; [apply elem_of_cons; by left | done].
    + apply IH. intros r Hr. apply Hall. apply elem_of_cons. by right.
Qed.

(** Two lists of rows with distinct keys that hold the same record under
    every key hold the same rows. *)
Lemma rows_perm_by_key rows1 rows2 :
  NoDup (rowKey <$> rows1) → NoDup (rowKey <$> rows2) →
  (∀ k, find_row k rows1 = find_row k rows2) → rows1 ≡ₚ rows2.
Proof.
  intros Hnd1 Hnd2 Hsame.
  apply NoDup_Permutation;
    [by apply NoDup_fmap_1 in Hnd1 | by apply NoDup_fmap_1 in Hnd2 |].
  intros row. split; intros Hin.
  - apply (find_row_unique _ _ Hnd1) in Hin. rewrite Hsame in Hin.
    by apply find_row_elem in Hin as [? _].
  - apply (find_row_unique _ _ Hnd2) in Hin. rewrite <- Hsame in Hin.
    by apply find_row_elem in Hin as [? _].
Qed.

(** The ledger an ingestion writes, key by key: the stored record merged, in
    batch order, with the rows of the batch that have its key; for a key the
    ledger did not have, those rows folded together; and nothing under any
    other key. *)
Theorem mergeIntoMasterFile_by_key cmp attempt batch fileType k :
  find_row k (mergeIntoMasterFile cmp attempt batch fileType) =
  merged_record fileType
    (match readMasterFile attempt with
     | Returned rows => rows
     | Thrown _ => []
     end)
    batch k.
Proof. unfold mergeIntoMasterFile. apply find_row_mergeRows. Qed.

(** A merge loses no order and invents none: the keys of the written rows
    are those of the stored rows and those of the rows of the batch that
    have an order id. *)
Theorem mergeRows_keys cmp existingRows batch fileType k :
  k ∈ rowKey <$> mergeRows cmp existingRows batch fileType ↔
  k ∈ rowKey <$> existingRows ∨
  ∃ row, row ∈ batch ∧ str_nonempty (orderId row) = true ∧ rowKey row = k.
Proof.
  rewrite <- (index_existing_keys existingRows k).
  destruct (decide (k ∈ rowKey <$> mergeRows cmp existingRows batch fileType))
    as [Hin|Hin].
  - split; [intros _|by intros _].
    destruct (decide (k ∈ (index_existing existingRows).*1)) as [?|Hs];
      [by left|right].
    apply jsmap_get_None in Hs.
    destruct (find_row k (mergeRows cmp existingRows batch fileType))
      as [row|] eqn:Hfind; [|by apply find_row_None in Hfind].
    rewrite find_row_mergeRows in Hfind. unfold merged_record in Hfind.
    rewrite Hs in Hfind.
    destruct (rows_of_key k batch) as [|first rest] eqn:Hrows; [done|].
    assert (Hmem : In first (rows_of_key k batch)) by (rewrite Hrows; by left).
    unfold rows_of_key in Hmem.
    apply List.filter_In in Hmem as [Hmem Hb].
    apply andb_prop in Hb as [Hid Hk%bool_decide_eq_true].
    exists first. by rewrite list_elem_of_In.
  - split; [done|]. intros Hcase. exfalso.
    apply find_row_None in Hin. rewrite find_row_mergeRows in Hin.
    unfold merged_record in Hin.
    destruct (jsmap_get (index_existing existingRows) k) eqn:Hs; [done|].
    destruct Hcase as [Hk|(row & Hrow & Hid & Hk)].
    + by apply jsmap_get_None in Hs.
    + destruct (rows_of_key k batch) eqn:Hrows; [|done].
      by apply (proj1 (rows_of_key_nil k batch) Hrows row).
Qed.

(** A stored record whose key no row of the batch has is written back as it
    is. *)
Theorem mergeRows_untouched cmp existingRows batch fileType stored :
  NoDup (rowKey <$> existingRows) →
  stored ∈ existingRows →
  (∀ row, row ∈ batch → str_nonempty (orderId row) = true →
          rowKey row ≠ rowKey stored) →
  stored ∈ mergeRows cmp existingRows batch fileType.
Proof.
  intros Hnd Hin Hnone.
  assert (Hfind : find_row (rowKey stored)
                    (mergeRows cmp existingRows batch fileType) = Some stored).
  { rewrite find_row_mergeRows. unfold merged_record.
    rewrite index_existing_distinct, jsmap_get_indexed by done.
    rewrite find_row_unique by done.
    by rewrite (proj2 (rows_of_key_nil _ _) Hnone). }
  by apply find_row_elem in Hfind as [? _].
Qed.

Lemma mergeRows_untouched_witness :
  NoDup (rowKey <$> [ledger_A1; digit_row]) ∧
  digit_row ∈ [ledger_A1; digit_row] ∧
  (∀ row, row ∈ [paid_A1] → str_nonempty (orderId row) = true →
          rowKey row ≠ rowKey digit_row) ∧
  digit_row ∈ mergeRows bytewise [ledger_A1; digit_row] [paid_A1] payment.
Proof.
  assert (H1 : NoDup (rowKey <$> [ledger_A1; digit_row])).
  { apply (bool_decide_unpack _). by vm_compute. }
  assert (H2 : digit_row ∈ [ledger_A1; digit_row]).
  { apply elem_of_cons. right. apply elem_of_cons. by left. }
  assert (H3 : ∀ row, row ∈ [paid_A1] → str_nonempty (orderId row) = true →
                      rowKey row ≠ rowKey digit_row).
  { intros row Hrow%list_elem_of_singleton _. subst row. by vm_compute. }
  split; [exact H1|]. split; [exact H2|]. split; [exact H3|].
  exact (mergeRows_untouched bytewise [ledger_A1; digit_row] [paid_A1] payment
           digit_row H1 H2 H3).
Defined.

(** The rows of a batch that have no order id change nothing. *)
Theorem mergeRows_skips_rows_without_orderId cmp existingRows batch fileType :
  mergeRows cmp existingRows batch fileType =
  mergeRows cmp existingRows
    (List.filter (λ row, str_nonempty (orderId row)) batch) fileType.
Proof.
  unfold mergeRows.
  assert (Hfold : ∀ maps,
            foldl (merge_step fileType) maps batch =
            foldl (merge_step fileType) maps
              (List.filter (λ row, str_nonempty (orderId row)) batch)).
  { induction batch as [|row batch IH]; intros maps; simpl; [done|].
    destruct (str_nonempty (orderId row)) eqn:Hid; simpl.
    - by rewrite IH.
    - rewrite <- IH. f_equal. destruct maps as [em nm]. simpl.
      by rewrite Hid. }
  by rewrite Hfold.
Qed.

(** Merging no row into a ledger that a merge wrote writes that ledger
    again. *)
Theorem mergeRows_nothing_into_written cmp existingRows batch
    fileType fileType' :
  (∀ a b, cmp b a = CompOpp (cmp a b)) →
  mergeRows cmp (mergeRows cmp existingRows batch fileType) [] fileType' =
  mergeRows cmp existingRows batch fileType.
Proof.
  intros Hcmp.
  pose proof (mergeRows_distinct_keys cmp existingRows batch fileType) as Hnd.
  unfold mergeRows at 1. simpl.
  rewrite index_existing_distinct by done. unfold add_new_rows. simpl.
  rewrite <- list_fmap_compose.
  assert (Hid : snd ∘ (λ row, (rowKey row, row)) <$>
                  mergeRows cmp existingRows batch fileType
                = mergeRows cmp existingRows batch fileType).
  { rewrite <- (list_fmap_id (mergeRows _ _ _ _)) at 2.
    by apply Forall_fmap_ext_1, Forall_true. }
  rewrite Hid. unfold mergeRows.
  destruct (foldl (merge_step fileType) (index_existing existingRows, [])
              batch) as [em nm].
  by apply sort_rows_idem.
Qed.

Lemma mergeRows_nothing_into_written_witness :
  (∀ a b, bytewise b a = CompOpp (bytewise a b)) ∧
  mergeRows bytewise
    (mergeRows bytewise [ledger_A1; digit_row] [paid_A1] payment) [] sales =
  mergeRows bytewise [ledger_A1; digit_row] [paid_A1] payment.
Proof.
  split; [exact bytewise_antisym|].
  exact (mergeRows_nothing_into_written bytewise [ledger_A1; digit_row]
           [paid_A1] payment sales bytewise_antisym).
Defined.

(** * More on the upload page *)

Lemma cell_raw_get row k v : cell row k = Some v → raw_get row k = Some v.
Proof.
  unfold cell. destruct (raw_get row k) as [w|]; [|done].
  destruct (str_nonempty w); [done | done].
Qed.

Lemma cell_of_found_raw_get (test : string → bool) row v :
  cell_of_found row (List.find test row.*1) = Some v →
  ∃ k, test k = true ∧ raw_get row k = Some v.
Proof.
  destruct (List.find test row.*1) as [k|] eqn:Hfind; simpl; [|done].
  apply List.find_some in Hfind as [_ Htest].
  destruct (str_nonempty k); [|done].
  intros Hcell%cell_raw_get. eauto.
Qed.

(** Whatever [getValue] returns, other than the empty string, is the cell of
    a column whose name is the configured header up to letter case, white
    space, underscores and hyphens. *)
Theorem getValue_from_matching_column row headerName :
  str_nonempty (getValue row headerName) = true →
  ∃ k, raw_get row k = Some (getValue row headerName) ∧
       loosen (normalize k) = loosen (normalize headerName).
Proof.
  unfold getValue. destruct (str_nonempty headerName); [|done].
  destruct (cell row headerName) as [v|] eqn:Hexact.
  { intros _. exists headerName. split; [by apply cell_raw_get | done]. }
  destruct (cell_of_found row
              (List.find (λ k, String.eqb (normalize k) (normalize headerName))
                 row.*1)) as [v|] eqn:Hnorm.
  { intros _. apply cell_of_found_raw_get in Hnorm as (k & Htest & Hget).
    apply String.eqb_eq in Htest. exists k. by rewrite Htest. }
  destruct (cell_of_found row
              (List.find (λ k, String.eqb (loosen (normalize k))
                                 (loosen (normalize headerName)))
                 row.*1)) as [v|] eqn:Hloose; [|done].
  intros _. apply cell_of_found_raw_get in Hloose as (k & Htest & Hget).
  apply String.eqb_eq in Htest. by exists k.
Qed.

Lemma getValue_from_matching_column_witness :
  str_nonempty (getValue [("order_id", "A1"); ("Item", "Widget")] "Order ID")
    = true ∧
  ∃ k, raw_get [("order_id", "A1"); ("Item", "Widget")] k =
         Some (getValue [("order_id", "A1"); ("Item", "Widget")] "Order ID") ∧
       loosen (normalize k) = loosen (normalize "Order ID").
Proof.
  assert (H : str_nonempty
                (getValue [("order_id", "A1"); ("Item", "Widget")] "Order ID")
              = true) by (by vm_compute).
  split; [exact H|].
  exact (getValue_from_matching_column
           [("order_id", "A1"); ("Item", "Widget")] "Order ID" H).
Defined.

Lemma filter_chars_idem keep s :
  filter_chars keep (filter_chars keep s) = filter_chars keep s.
Proof.
  induction s as [|c s IH]; [done|]. simpl.
  destruct (keep c) eqn:Hc; [|done]. simpl. by rewrite Hc, IH.
Qed.

(** Currency signs, thousands separators, letters and blanks do not count:
    a text parses to the number its digits, points and minus signs parse
    to. *)
Theorem parseNumber_ignores_other_chars value :
  parseNumber value = parseNumber (filter_chars number_char value).
Proof.
  unfold parseNumber. rewrite filter_chars_idem.
  destruct value as [|c s]; [done|].
  destruct (filter_chars number_char (String c s)); done.
Qed.

Lemma digits_value_nonneg ds :
  Forall (λ d, 0 ≤ d)%Z ds → (0 ≤ digits_value ds)%Z.
Proof.
  unfold digits_value.
  assert (Hgen : ∀ acc, (0 ≤ acc)%Z → Forall (λ d, 0 ≤ d)%Z ds →
                        (0 ≤ foldl (λ acc d, 10 * acc + d) acc ds)%Z).
  { induction ds as [|d ds IH]; intros acc Hacc Hds; simpl; [done|].
    apply Forall_cons in Hds as [Hd Hds]. apply IH; [lia | done]. }
  by apply Hgen.
Qed.

Lemma span_digits_nonneg s : Forall (λ d, 0 ≤ d)%Z (span_digits s).1.
Proof.
  induction s as [|c s IH]; simpl; [constructor|].
  destruct (Ascii.is_nat c) as [d|]; [|constructor].
  destruct (span_digits s) as [ds r]. simpl in *.
  constructor; [lia | done].
Qed.

Lemma filter_chars_all P keep s :
  all_chars P s = true → all_chars P (filter_chars keep s) = true.
Proof.
  induction s as [|c s IH]; simpl; [done|].
  intros [Hc Hs]%andb_prop. destruct (keep c); simpl; [|by apply IH].
  by rewrite Hc, IH.
Qed.

(** A text without a minus sign never parses to a negative number. *)
Theorem parseNumber_nonneg value :
  all_chars (λ c, negb (Ascii.eqb c "-"%char)) value = true →
  (0 <= parseNumber value)%Q.
Proof.
  intros Hminus. unfold parseNumber.
  destruct (str_nonempty value); [|done].
  pose proof (filter_chars_all _ number_char value Hminus) as Hclean.
  destruct (filter_chars number_char value) as [|c s] eqn:Hs; [done|].
  unfold parseFloat.
  assert (Hc : match String c s with
               | String "-"%char r => (true, r)
               | _ => (false, String c s)
               end = (false, String c s)).
  { simpl in Hclean. apply andb_prop in Hclean as [Hc _].
    destruct c as [[] [] [] [] [] [] [] []]; done. }
  rewrite Hc.
  pose proof (span_digits_nonneg (String c s)) as Hip.
  destruct (span_digits (String c s)) as [ip s2]. simpl in Hip.
  set (fp := match s2 with
             | String "."%char r => (span_digits r).1
             | _ => []
             end).
  assert (Hfp : Forall (λ d, 0 ≤ d)%Z fp).
  { unfold fp. destruct s2 as [|d r]; [constructor|].
    destruct d as [[] [] [] [] [] [] [] []]; try constructor.
    apply span_digits_nonneg. }
  destruct (ip ++ fp)%list as [|d ds] eqn:Hds; [done|].
  rewrite Qred_correct. unfold Qle. simpl.
  assert (0 ≤ digits_value (d :: ds))%Z; [|lia].
  apply digits_value_nonneg. rewrite <- Hds. by apply Forall_app.
Qed.

Lemma parseNumber_nonneg_witness :
  all_chars (λ c, negb (Ascii.eqb c "-"%char)) "Rs 1,250.50" = true ∧
  (0 <= parseNumber "Rs 1,250.50")%Q.
Proof.
  assert (H : all_chars (λ c, negb (Ascii.eqb c "-"%char)) "Rs 1,250.50"
              = true) by (by vm_compute).
  split; [exact H|]. exact (parseNumber_nonneg "Rs 1,250.50" H).
Defined.

Section RowLoopAccounts.

Variable isoDay : string → option string.
Variable headers : gmap string string.
Variable uploadType : FileType.

(** Every row of the file is counted once, as a success, an error or a
    duplicate, and the batch has one row for every success. *)
Theorem processRows_counts rows :
  successCount (processRows isoDay headers uploadType rows)
    + errorCount (processRows isoDay headers uploadType rows)
    + duplicateCount (processRows isoDay headers uploadType rows)
  = length rows ∧
  length (mergedRows (processRows isoDay headers uploadType rows))
  = successCount (processRows isoDay headers uploadType rows).
Proof.
  unfold processRows.
  assert (Hgen : ∀ p,
    let q := foldl (processRow isoDay headers uploadType) p rows in
    successCount q + errorCount q + duplicateCount q
    = successCount p + errorCount p + duplicateCount p + length rows ∧
    (length (mergedRows p) = successCount p →
     length (mergedRows q) = successCount q)).
  { induction rows as [|row rows IH]; intros p; simpl; [split; [lia|done]|].
    destruct (IH (processRow isoDay headers uploadType p row)) as [-> Hlen].
    unfold processRow in *.
    destruct (hasOrderId (extractedOrderId headers row)); simpl in *;
      [case_decide; simpl in *|].
    - split; [lia|done].
    - split; [lia|]. intros Hp. apply Hlen. rewrite length_app. simpl. lia.
    - split; [lia|done]. }
  destruct (Hgen start) as [Hsum Hlen]. simpl in *. split; [lia | by apply Hlen].
Qed.

(** On a sheet without a column called orderId or subOrderId, the rows of
    the batch have pairwise distinct identity keys and none lacks an order
    id or a sub order id. *)
Lemma processRows_rows rows :
  Forall (λ row, raw_get row "orderId" = None
                 ∧ raw_get row "subOrderId" = None) rows →
  NoDup (rowKey <$> mergedRows (processRows isoDay headers uploadType rows)) ∧
  Forall (λ row, str_nonempty (orderId row) = true)
    (mergedRows (processRows isoDay headers uploadType rows)).
Proof.
  unfold processRows. intros Hrows.
  assert (Hgen : ∀ p,
    NoDup (rowKey <$> mergedRows p) →
    Forall (λ row, rowKey row ∈ processedKeys p
                   ∧ str_nonempty (orderId row) = true) (mergedRows p) →
    let q := foldl (processRow isoDay headers uploadType) p rows in
    NoDup (rowKey <$> mergedRows q) ∧
    Forall (λ row, rowKey row ∈ processedKeys q
                   ∧ str_nonempty (orderId row) = true) (mergedRows q)).
  { induction Hrows as [|row rows [Ho Hs] Hrows IH]; intros p Hnd Hall;
      simpl; [done|].
    apply IH; unfold processRow;
      destruct (hasOrderId (extractedOrderId headers row)) eqn:Hid;
      try done; case_decide as Hseen; simpl; try done.
    - rewrite fmap_app. apply NoDup_app. split; [done|].
      split; [|apply NoDup_singleton].
      intros k Hk Hnew. apply list_elem_of_singleton in Hnew.
      apply Hseen. apply list_elem_of_fmap in Hk as (r & -> & Hr).
      apply (proj1 (Forall_forall _ _) Hall) in Hr as [Hr _].
      rewrite Hnew in Hr. unfold rowKey in Hr. simpl in Hr.
      rewrite Ho, Hs in Hr. simpl in Hr.
      by rewrite uniqueKey_is_identityKey.
    - apply Forall_app. split.
      + eapply Forall_impl; [exact Hall|]. intros r [Hr ?]. split; [|done].
        apply elem_of_union. by right.
      + constructor; [|constructor]. unfold rowKey. simpl.
        rewrite Ho, Hs. simpl. split.
        * rewrite <- uniqueKey_is_identityKey. apply elem_of_union. left.
          by apply elem_of_singleton.
        * unfold hasOrderId in Hid. by apply andb_prop in Hid as [-> _]. }
  destruct (Hgen start) as [Hnd Hall]; [constructor | constructor |].
  split; [done|]. eapply Forall_impl; [exact Hall|]. by intros r [_ ?].
Qed.

End RowLoopAccounts.

Lemma rows_of_key_distinct k batch :
  NoDup (rowKey <$> batch) →
  Forall (λ row, str_nonempty (orderId row) = true) batch →
  rows_of_key k batch =
  match find_row k batch with Some row => [row] | None => [] end.
Proof.
  unfold rows_of_key, find_row.
  induction batch as [|row batch IH]; intros Hnd Hall; [done|].
  rewrite fmap_cons in Hnd. apply NoDup_cons in Hnd as [Hrow Hnd].
  apply Forall_cons in Hall as [Hid Hall]. simpl. rewrite Hid. simpl.
  destruct (String.eqb_spec (rowKey row) k) as [Hk|Hk].
  - rewrite bool_decide_eq_true_2 by done. f_equal.
    apply rows_of_key_nil. intros r Hr _ Hrk. apply Hrow.
    rewrite Hk, <- Hrk. by apply list_elem_of_fmap_2.
  - rewrite bool_decide_eq_false_2 by done. by apply IH.
Qed.

(** Into an empty ledger, a batch with distinct keys is written as it is, up
    to the order of the rows. *)
Lemma mergeRows_fresh_batch cmp batch fileType :
  NoDup (rowKey <$> batch) →
  Forall (λ row, str_nonempty (orderId row) = true) batch →
  mergeRows cmp [] batch fileType ≡ₚ batch.
Proof.
  intros Hnd Hall.
  apply rows_perm_by_key; [apply mergeRows_distinct_keys | done |].
  intros k. rewrite find_row_mergeRows. unfold merged_record. simpl.
  rewrite rows_of_key_distinct by done.
  by destruct (find_row k batch).
Qed.

(** The first upload for a platform: the master file holds exactly the rows
    of the sheet that were counted as successes, as the row loop mapped
    them. *)
Theorem first_upload_stores_the_batch isoDay cmp error headers uploadType
    rows :
  Forall (λ row, raw_get row "orderId" = None
                 ∧ raw_get row "subOrderId" = None) rows →
  mergeIntoMasterFile cmp (Raised error)
    (mergedRows (processRows isoDay headers uploadType rows)) uploadType
  ≡ₚ mergedRows (processRows isoDay headers uploadType rows).
Proof.
  intros Hrows. rewrite mergeIntoMasterFile_after_failed_read.
  destruct (processRows_rows isoDay headers uploadType rows Hrows).
  by apply mergeRows_fresh_batch.
Qed.

Lemma first_upload_stores_the_batch_witness :
  Forall (λ row, raw_get row "orderId" = None
                 ∧ raw_get row "subOrderId" = None) sales_file_twice ∧
  mergeIntoMasterFile bytewise (Raised object_not_found)
    (mergedRows (processRows no_dates sales_headers sales sales_file_twice))
    sales
  ≡ₚ mergedRows (processRows no_dates sales_headers sales sales_file_twice).
Proof.
  assert (H : Forall (λ row, raw_get row "orderId" = None
                             ∧ raw_get row "subOrderId" = None)
                sales_file_twice) by (repeat constructor).
  split; [exact H|].
  exact (first_upload_stores_the_batch no_dates bytewise object_not_found
           sales_headers sales sales_file_twice H).
Defined.

(** The batch an upload hands to the merge has no two rows with the same
    identity key, so the merge never has to fold rows of one upload. *)
Theorem processRows_distinct_keys isoDay headers uploadType rows :
  Forall (λ row, raw_get row "orderId" = None
                 ∧ raw_get row "subOrderId" = None) rows →
  NoDup (rowKey <$> mergedRows (processRows isoDay headers uploadType rows)) ∧
  Forall (λ row, str_nonempty (orderId row) = true
                 ∧ str_nonempty (subOrderId row) = true)
    (mergedRows (processRows isoDay headers uploadType rows)).
Proof.
  intros Hrows.
  destruct (processRows_rows isoDay headers uploadType rows Hrows) as [Hnd Ho].
  split; [done|].
  pose proof (processRows_subOrderId isoDay headers uploadType rows Hrows)
    as Hs.
  apply Forall_forall. intros row Hrow. split.
  - by apply (proj1 (Forall_forall _ _) Ho).
  - by apply (proj1 (Forall_forall _ _) Hs).
Qed.

Lemma processRows_distinct_keys_witness :
  Forall (λ row, raw_get row "orderId" = None
                 ∧ raw_get row "subOrderId" = None) sales_file_twice ∧
  NoDup (rowKey <$> mergedRows
           (processRows no_dates sales_headers sales sales_file_twice)) ∧
  Forall (λ row, str_nonempty (orderId row) = true
                 ∧ str_nonempty (subOrderId row) = true)
    (mergedRows (processRows no_dates sales_headers sales sales_file_twice)).
Proof.
  assert (H : Forall (λ row, raw_get row "orderId" = None
                             ∧ raw_get row "subOrderId" = None)
                sales_file_twice) by (repeat constructor).
  split; [exact H|].
  exact (processRows_distinct_keys no_dates sales_headers sales
           sales_file_twice H).
Defined.

(** * Raw columns *)

Lemma list_to_map_raw_get (row : RawRow) k :
  (list_to_map row : gmap string string) !! k = raw_get row k.
Proof.
  induction row as [|[k0 v0] row IH]; simpl; [done|].
  rewrite lookup_insert. destruct (String.eqb_spec k0 k) as [->|Hne].
  - by rewrite decide_True.
  - by rewrite decide_False.
Qed.

Lemma map_fields_other isoDay row headers ms m k :
  k ∉ ms.*1.*2 →
  foldl (map_field isoDay row headers) m ms !! k = m !! k.
Proof.
  revert m. induction ms as [|[[guarded f] c] ms IH]; intros m Hk; [done|].
  rewrite !fmap_cons in Hk. apply not_elem_of_cons in Hk as [Hne Hk].
  simpl in *. rewrite IH by done.
  destruct (guarded && negb (str_nonempty (header headers f))); [done|].
  by rewrite lookup_insert_ne.
Qed.

(** Every column of the sheet is kept on the row under its own name, with
    its text, unless the upload type maps a field of that name or the column
    is called orderId or subOrderId. *)
Theorem toMergedRow_keeps_raw_column isoDay row headers uploadType
    oid sub orderDate k v :
  raw_get row k = Some v →
  k ≠ "orderId" → k ≠ "subOrderId" →
  k ∉ (kind_mapping uploadType).*1.*2 →
  props (toMergedRow isoDay row headers uploadType oid sub orderDate) !! k
  = Some (VStr v).
Proof.
  intros Hget Ho Hs Hk. unfold toMergedRow. cbn [props].
  rewrite map_fields_other by done.
  rewrite lookup_union, !lookup_delete_ne by done.
  rewrite lookup_fmap, list_to_map_raw_get, Hget. simpl.
  by destruct ({[ "orderDate" := VStr orderDate ]} !! k).
Qed.

Lemma toMergedRow_keeps_raw_column_witness :
  raw_get [("Order ID", "A1"); ("Courier", "BlueDart")] "Courier"
    = Some "BlueDart" ∧
  "Courier" ≠ "orderId" ∧ "Courier" ≠ "subOrderId" ∧
  ("Courier" ∉ (kind_mapping sales).*1.*2) ∧
  props (toMergedRow no_dates [("Order ID", "A1"); ("Courier", "BlueDart")]
           sales_headers sales "A1" "A1" "") !! "Courier"
  = Some (VStr "BlueDart").
Proof.
  assert (H1 : raw_get [("Order ID", "A1"); ("Courier", "BlueDart")] "Courier"
               = Some "BlueDart") by done.
  assert (H2 : "Courier" ≠ "orderId") by done.
  assert (H3 : "Courier" ≠ "subOrderId") by done.
  assert (H4 : "Courier" ∉ (kind_mapping sales).*1.*2).
  { apply (bool_decide_unpack _). by vm_compute. }
  split; [exact H1|]. split; [exact H2|]. split; [exact H3|].
  split; [exact H4|].
  exact (toMergedRow_keeps_raw_column no_dates
           [("Order ID", "A1"); ("Courier", "BlueDart")] sales_headers sales
           "A1" "A1" "" "Courier" "BlueDart" H1 H2 H3 H4).
Defined.

(** * More on reading the ledger *)

Lemma has_prefix_app p s : has_prefix p (p +:+ s) = true.
Proof.
  induction p as [|c p IH]; [by destruct s|].
  rewrite app_cons. simpl. by rewrite Ascii.eqb_refl.
Qed.

Lemma includes_prefix p s : includes (p +:+ s) p = true.
Proof.
  destruct (p +:+ s) eqn:Heq; simpl; rewrite <- Heq; by rewrite has_prefix_app.
Qed.

Lemma includes_cons c s p :
  includes (String c s) p = has_prefix p (String c s) || includes s p.
Proof. done. Qed.

(** A pattern whose first character does not occur in a prefix cannot start
    inside that prefix. *)
Lemma includes_after_prefix pre a p s :
  all_chars (λ c, negb (Ascii.eqb a c)) pre = true →
  includes (pre +:+ s) (String a p) = includes s (String a p).
Proof.
  induction pre as [|c pre IH]; [done|].
  intros Hall. simpl in Hall. apply andb_prop in Hall as [Hc Hpre].
  rewrite app_cons, includes_cons, IH by done.
  simpl. apply negb_true_iff in Hc. by rewrite Hc.
Qed.

(** A response that is not ok is answered by the CORS error, whatever its
    status; only a status text that speaks of something not found, or of
    404, is taken for a missing file. *)
Theorem readMasterFile_response_not_ok statusText :
  readMasterFile (NotOk statusText) =
  if includes statusText "not found" || includes statusText "No such object"
     || includes statusText "404"
  then Returned [] else Thrown cors_message.
Proof.
  simpl. unfold handle_read_error, treated_as_missing, treated_as_cors,
    code_is, message_includes, name_is. cbn [code message name statusCode].
  rewrite !(includes_after_prefix "Failed to fetch file: ") by done.
  change ("Failed to fetch file: " +:+ statusText)
    with ("Failed to fetch" +:+ (" file: " +:+ statusText)).
  rewrite (includes_prefix "Failed to fetch").
  rewrite !orb_false_r, orb_true_r. simpl.
  by destruct (includes statusText "not found"
               || includes statusText "No such object"
               || includes statusText "404").
Qed.

(** * More on the point update *)

Section PointUpdate.

Variable localeCompare : string → string → comparison.
Variables companyId platformId : string.

Lemma replace_first_None key updates rows :
  replace_first key (apply_updates updates) rows = None ↔
  key ∉ rowKey <$> rows.
Proof.
  induction rows as [|row rows IH].
  - split; [intros _; apply not_elem_of_nil | done].
  - rewrite fmap_cons, not_elem_of_cons. simpl.
    destruct (String.eqb_spec (rowKey row) key) as [Hk|Hk].
    + split; [done | by intros [? _]].
    + destruct (replace_first key (apply_updates updates) rows); simpl.
      * split; [done|]. intros [_ Hn]. by apply IH in Hn.
      * split; [intros _|done]. split; [done | by apply IH].
Qed.

Lemma replace_first_find key updates rows rows' k :
  replace_first key (apply_updates updates) rows = Some rows' →
  find_row k rows' =
  if decide (k = key) then apply_updates updates <$> find_row k rows
  else find_row k rows.
Proof.
  unfold find_row. revert rows'.
  induction rows as [|row rows IH]; intros rows'; simpl; [done|].
  destruct (String.eqb_spec (rowKey row) key) as [Hk|Hk].
  - intros [= <-]. simpl. rewrite rowKey_apply_updates.
    destruct (String.eqb_spec (rowKey row) k) as [Hk'|Hk'].
    + by rewrite decide_True by congruence.
    + by rewrite decide_False by congruence.
  - destruct (replace_first key (apply_updates updates) rows) as [l|];
      simpl; [|done].
    intros [= <-]. simpl.
    destruct (String.eqb_spec (rowKey row) k) as [Hk'|Hk'].
    + by rewrite decide_False by congruence.
    + by apply IH.
Qed.

(** The point update succeeds exactly when the ledger has a record under the
    identity key of the two identifiers it is given. *)
Theorem update_succeeds_iff_found attempt oid sub updates rows :
  readMasterFile attempt = Returned rows →
  (∃ rows', updateOrderInMasterFile localeCompare attempt companyId
              platformId oid sub updates = Returned rows')
  ↔ identityKey oid sub ∈ rowKey <$> rows.
Proof.
  intros Hread. unfold updateOrderInMasterFile. rewrite Hread.
  destruct rows as [|row rows].
  { split; [by intros [? ?] | by intros ?%elem_of_nil]. }
  destruct (replace_first _ _ (row :: rows)) as [l|] eqn:Hreplace.
  - split; [intros _|eauto].
    destruct (decide (identityKey oid sub ∈ rowKey <$> row :: rows))
      as [?|Hn]; [done|].
    apply (proj2 (replace_first_None _ updates _)) in Hn. congruence.
  - split; [by intros [? ?]|]. intros Hin.
    by apply replace_first_None in Hreplace.
Qed.

(** After a point update, the ledger holds under the key of the order the
    stored record with the patch laid over it, and under every other key
    what it held. *)
Theorem update_then_find attempt oid sub updates rows rows' k :
  readMasterFile attempt = Returned rows →
  NoDup (rowKey <$> rows) →
  updateOrderInMasterFile localeCompare attempt companyId platformId oid sub
    updates = Returned rows' →
  find_row k rows' =
  if decide (k = identityKey oid sub)
  then apply_updates updates <$> find_row k rows
  else find_row k rows.
Proof.
  intros Hread Hnd. unfold updateOrderInMasterFile. rewrite Hread.
  destruct rows as [|row rows]; [done|].
  destruct (replace_first _ _ (row :: rows)) as [l|] eqn:Hreplace; [|done].
  intros [= <-].
  assert (Hnd' : NoDup (rowKey <$> sort_rows localeCompare l)).
  { by rewrite sort_rows_perm, (replace_first_keys _ _ _ _ Hreplace). }
  rewrite (find_row_perm k _ _ Hnd' (sort_rows_perm localeCompare l)).
  by apply replace_first_find.
Qed.

(** The identifiers of a point update are matched whatever their letter
    case. *)
Theorem update_ignores_case attempt oid sub updates rows' :
  updateOrderInMasterFile localeCompare attempt companyId platformId
    (toLowerCase oid) (toLowerCase sub) updates = Returned rows'
  ↔ updateOrderInMasterFile localeCompare attempt companyId platformId
      oid sub updates = Returned rows'.
Proof.
  unfold updateOrderInMasterFile. rewrite identityKey_toLowerCase.
  destruct (readMasterFile attempt) as [[|row rows]|msg]; [done| |done].
  by destruct (replace_first _ _ (row :: rows)).
Qed.

End PointUpdate.

Lemma update_succeeds_iff_found_witness :
  readMasterFile (Fetched [ledger_A1; digit_row])
    = Returned [ledger_A1; digit_row] ∧
  ((∃ rows', updateOrderInMasterFile bytewise
               (Fetched [ledger_A1; digit_row]) "c1" "p1" "a1" ""
               return_patch = Returned rows')
   ↔ identityKey "a1" "" ∈ rowKey <$> [ledger_A1; digit_row]).
Proof.
  assert (H : readMasterFile (Fetched [ledger_A1; digit_row])
              = Returned [ledger_A1; digit_row]) by done.
  split; [exact H|].
  exact (update_succeeds_iff_found bytewise "c1" "p1"
           (Fetched [ledger_A1; digit_row]) "a1" "" return_patch
           [ledger_A1; digit_row] H).
Defined.

Lemma update_then_find_witness :
  readMasterFile (Fetched [ledger_A1; digit_row])
    = Returned [ledger_A1; digit_row] ∧
  NoDup (rowKey <$> [ledger_A1; digit_row]) ∧
  updateOrderInMasterFile bytewise (Fetched [ledger_A1; digit_row]) "c1" "p1"
    "A1" "A1" return_patch
    = Returned [digit_row; apply_updates return_patch ledger_A1] ∧
  find_row "a1_a1" [digit_row; apply_updates return_patch ledger_A1] =
  if decide ("a1_a1" = identityKey "A1" "A1")
  then apply_updates return_patch <$> find_row "a1_a1" [ledger_A1; digit_row]
  else find_row "a1_a1" [ledger_A1; digit_row].
Proof.
  assert (H1 : readMasterFile (Fetched [ledger_A1; digit_row])
               = Returned [ledger_A1; digit_row]) by done.
  assert (H2 : NoDup (rowKey <$> [ledger_A1; digit_row])).
  { apply (bool_decide_unpack _). by vm_compute. }
  assert (H3 : updateOrderInMasterFile bytewise
                 (Fetched [ledger_A1; digit_row]) "c1" "p1" "A1" "A1"
                 return_patch
               = Returned [digit_row; apply_updates return_patch ledger_A1])
    by (by vm_compute).
  split; [exact H1|]. split; [exact H2|]. split; [exact H3|].
  exact (update_then_find bytewise "c1" "p1" (Fetched [ledger_A1; digit_row])
           "A1" "A1" return_patch [ledger_A1; digit_row]
           [digit_row; apply_updates return_patch ledger_A1] "a1_a1"
           H1 H2 H3).
Defined.

Lemma update_keeps_ledger_keyed_witness :
  (∀ a b, bytewise b a = CompOpp (bytewise a b)) ∧
  (∀ a b c, bytewise a b ≠ Gt → bytewise b c ≠ Gt → bytewise a c ≠ Gt) ∧
  readMasterFile (Fetched [ledger_A1; digit_row])
    = Returned [ledger_A1; digit_row] ∧
  NoDup (rowKey <$> [ledger_A1; digit_row]) ∧
  updateOrderInMasterFile bytewise (Fetched [ledger_A1; digit_row]) "c1" "p1"
    "A1" "A1" return_patch
    = Returned [digit_row; apply_updates return_patch ledger_A1] ∧
  NoDup (rowKey <$> [digit_row; apply_updates return_patch ledger_A1]) ∧
  StronglySorted (sortKey_le bytewise)
    [digit_row; apply_updates return_patch ledger_A1].
Proof.
  assert (H1 : readMasterFile (Fetched [ledger_A1; digit_row])
               = Returned [ledger_A1; digit_row]) by done.
  assert (H2 : NoDup (rowKey <$> [ledger_A1; digit_row])).
  { apply (bool_decide_unpack _). by vm_compute. }
  assert (H3 : updateOrderInMasterFile bytewise
                 (Fetched [ledger_A1; digit_row]) "c1" "p1" "A1" "A1"
                 return_patch
               = Returned [digit_row; apply_updates return_patch ledger_A1])
    by (by vm_compute).
  split; [exact bytewise_antisym|]. split; [exact bytewise_trans|].
  split; [exact H1|]. split; [exact H2|]. split; [exact H3|].
  exact (update_keeps_ledger_keyed bytewise (Fetched [ledger_A1; digit_row])
           "c1" "p1" "A1" "A1" return_patch [ledger_A1; digit_row]
           [digit_row; apply_updates return_patch ledger_A1]
           bytewise_antisym bytewise_trans H1 H2 H3).
Defined.

(** * More on the dashboard loader *)

Lemma mergedRowToOrder_identified row companyId platformId :
  str_nonempty (orderId row) = true →
  str_nonempty (trim (orderId row)) = true →
  let o := mergedRowToOrder row companyId platformId in
  hasOrderId (Order.orderId o) = true ∧
  str_nonempty (Order.subOrderId o) = true ∧
  Order.id o = Order.orderId o +:+ "_" +:+ Order.subOrderId o.
Proof.
  intros Hid Htrim. simpl. unfold hasOrderId, str_or.
  rewrite Hid. rewrite Hid, Htrim.
  destruct (str_nonempty (subOrderId row)) eqn:Hsub; rewrite ?Hsub, ?Hid; done.
Qed.

(** Every order the bulk load returns has an order id that is not blank and
    a sub order id that is not empty, and its id is the two joined by an
    underscore. *)
Theorem loaded_orders_are_identified storage companies uploadedFiles :
  Forall (λ o, hasOrderId (Order.orderId o) = true ∧
               str_nonempty (Order.subOrderId o) = true ∧
               Order.id o = Order.orderId o +:+ "_" +:+ Order.subOrderId o)
    (loadOrdersFromMasterFiles storage companies uploadedFiles).
Proof.
  unfold loadOrdersFromMasterFiles.
  apply Forall_concat, Forall_fmap, Forall_true. intros entry.
  unfold loadOne. simpl.
  destruct (readMasterFile (storage entry.1)) as [rows|msg]; [|constructor].
  apply Forall_fmap, Forall_forall. intros row Hrow.
  apply list_elem_of_In, List.filter_In in Hrow as [_ Hrow].
  apply andb_prop in Hrow as [Hid Htrim].
  by apply mergedRowToOrder_identified.
Qed.

Section MasterFiles.

Let entry_ok (e : string * (string * string)) : Prop :=
  e.1 = getMasterFilePath e.2.1 e.2.2.

Lemma masterFileMap_uploads uploadedFiles :
  let m :=
    (foldl
       (λ (acc : gset string * list (string * (string * string))) file,
          let key := file.1 +:+ "_" +:+ file.2 in
          if decide (key ∈ acc.1) then acc
          else ({[ key ]} ∪ acc.1,
                jsmap_set acc.2 (getMasterFilePath file.1 file.2) file))
       (∅, []) uploadedFiles).2 in
  NoDup m.*1 ∧ Forall entry_ok m.
Proof.
  generalize (∅ : gset string).
  assert (Hnil : NoDup ([] : list (string * (string * string))).*1
                 ∧ Forall entry_ok []) by (split; constructor).
  revert Hnil. generalize ([] : list (string * (string * string))).
  induction uploadedFiles as [|file files IH]; intros m Hm seen; simpl;
    [done|].
  case_decide; [by apply IH|]. apply IH. destruct Hm as [Hnd Hok].
  split; [by apply jsmap_set_NoDup | by apply jsmap_set_Forall].
Qed.

Lemma masterFileMap_platforms company platforms m :
  let m' :=
    foldl
      (λ m platform,
         if jsmap_has m (getMasterFilePath company platform) then m
         else jsmap_set m (getMasterFilePath company platform)
                (company, platform))
      m platforms in
  (NoDup m.*1 ∧ Forall entry_ok m → NoDup m'.*1 ∧ Forall entry_ok m') ∧
  (∀ path, path ∈ m.*1 → path ∈ m'.*1) ∧
  (∀ platform, platform ∈ platforms →
               getMasterFilePath company platform ∈ m'.*1).
Proof.
  revert m. induction platforms as [|platform platforms IH]; intros m; simpl.
  - split; [done|]. split; [done|]. by intros ? ?%elem_of_nil.
  - set (m1 := if jsmap_has m (getMasterFilePath company platform) then m
               else jsmap_set m (getMasterFilePath company platform)
                      (company, platform)).
    destruct (IH m1) as (Hinv & Hmono & Hcover).
    assert (Hpath : getMasterFilePath company platform ∈ m1.*1).
    { unfold m1.
      destruct (jsmap_has m (getMasterFilePath company platform)) eqn:Hhas.
      - by apply jsmap_has_true.
      - apply jsmap_set_keys. by left. }
    assert (Hm1 : ∀ path, path ∈ m.*1 → path ∈ m1.*1).
    { intros path Hin. unfold m1.
      destruct (jsmap_has m (getMasterFilePath company platform)); [done|].
      apply jsmap_set_keys. by right. }
    split; [|split].
    + intros [Hnd Hok]. apply Hinv. unfold m1.
      destruct (jsmap_has m (getMasterFilePath company platform)); [done|].
      split; [by apply jsmap_set_NoDup | by apply jsmap_set_Forall].
    + intros path Hin. by apply Hmono, Hm1.
    + intros q [->|Hq]%elem_of_cons; [by apply Hmono | by apply Hcover].
Qed.

(** The master files of a bulk load: no path is read twice, every path is
    the master file of the company and platform it is loaded for, and the
    master file of every platform of every company is among them. *)
Theorem masterFileMap_covers companies uploadedFiles :
  NoDup (masterFileMap companies uploadedFiles).*1 ∧
  Forall (λ e, e.1 = getMasterFilePath e.2.1 e.2.2)
    (masterFileMap companies uploadedFiles) ∧
  ∀ company platforms platform,
    (company, platforms) ∈ companies → platform ∈ platforms →
    getMasterFilePath company platform
      ∈ (masterFileMap companies uploadedFiles).*1.
Proof.
  unfold masterFileMap.
  pose proof (masterFileMap_uploads uploadedFiles) as Hstart.
  simpl in Hstart. revert Hstart.
  generalize
    (foldl
       (λ (acc : gset string * list (string * (string * string))) file,
          if decide (file.1 +:+ "_" +:+ file.2 ∈ acc.1) then acc
          else ({[ file.1 +:+ "_" +:+ file.2 ]} ∪ acc.1,
                jsmap_set acc.2 (getMasterFilePath file.1 file.2) file))
       (∅, []) uploadedFiles).2.
  induction companies as [|[c ps] companies IH]; intros m Hm; simpl.
  - destruct Hm as [Hnd Hok]. split; [done|]. split; [done|].
    by intros ? ? ? ?%elem_of_nil.
  - destruct (masterFileMap_platforms c ps m) as (Hinv & Hmono & Hcover).
    simpl in *.
    destruct (IH _ (Hinv Hm)) as (Hnd & Hok & Hall).
    split; [done|]. split; [done|].
    intros company platforms platform [[= -> ->]|Hin]%elem_of_cons Hp.
    + assert (Hkeep : ∀ cs m0 path, path ∈ m0.*1 →
        path ∈ (foldl
                  (λ m1 company0,
                     foldl
                       (λ m2 platform0,
                          if jsmap_has m2
                               (getMasterFilePath company0.1 platform0)
                          then m2
                          else jsmap_set m2
                                 (getMasterFilePath company0.1 platform0)
                                 (company0.1, platform0))
                       m1 company0.2)
                  m0 cs).*1).
      { induction cs as [|[c0 ps0] cs IHcs]; intros m0 path Hin;
          simpl; [done|].
        apply IHcs.
        destruct (masterFileMap_platforms c0 ps0 m0) as (_ & Hmono0 & _).
        by apply Hmono0. }
      by apply Hkeep, Hcover.
    + by eapply Hall.
Qed.

End MasterFiles.

(** The bulk load of a single platform returns the orders the load of that
    platform returns, less those whose order id is blank: the two loads test
    the order id differently. *)
Theorem bulk_load_of_one_platform storage companyId platformId :
  loadOrdersFromMasterFiles storage [(companyId, [platformId])] [] =
  List.filter (λ o, str_nonempty (trim (Order.orderId o)))
    (loadOrdersForPlatform storage companyId platformId).
Proof.
  unfold loadOrdersFromMasterFiles, loadOrdersForPlatform, masterFileMap.
  simpl. unfold loadOne. simpl. rewrite app_nil_r.
  destruct (readMasterFile (storage (getMasterFilePath companyId platformId)))
    as [rows|msg]; [|done].
  induction rows as [|row rows IH]; [done|]. simpl.
  destruct (str_nonempty (orderId row)) eqn:Hid; simpl; [|done].
  assert (str_or (orderId row) "" = orderId row) as ->
    by (unfold str_or; by rewrite Hid).
  destruct (str_nonempty (trim (orderId row))); [rewrite fmap_cons|];
    by rewrite IH.
Qed.

(** * Storage paths *)

Lemma file_name_char_not_slash c :
  file_name_char c = true → Ascii.eqb c "/"%char = false.
Proof.
  destruct (Ascii.eqb_spec c "/"%char) as [->|Hne]; [|done].
  by vm_compute.
Qed.

(** The name under which an uploaded file is stored keeps its length, is
    made of letters, digits, points, hyphens and underscores only, and so
    holds no slash: it cannot open a folder of its own. *)
Theorem sanitizeFileName_safe fileName :
  String.length (sanitizeFileName fileName) = String.length fileName ∧
  all_chars (λ c, file_name_char c || Ascii.eqb c "_"%char)
    (sanitizeFileName fileName) = true ∧
  no_slash (sanitizeFileName fileName) = true.
Proof.
  unfold sanitizeFileName, no_slash.
  induction fileName as [|c s (Hlen & Hall & Hslash)]; [done|]. simpl.
  rewrite Hlen, Hall, Hslash.
  destruct (file_name_char c) eqn:Hc.
  - by rewrite Hc, (file_name_char_not_slash c Hc).
  - done.
Qed.

(** A name that is already made of file name characters is kept as it
    is. *)
Lemma sanitizeFileName_fixed fileName :
  all_chars file_name_char fileName = true →
  sanitizeFileName fileName = fileName.
Proof.
  unfold sanitizeFileName. induction fileName as [|c s IH]; [done|]. simpl.
  intros [Hc Hs]%andb_prop. by rewrite Hc, IH.
Qed.

Lemma app_inj_r (a b s : string) : a +:+ s = b +:+ s → a = b.
Proof.
  revert b. induction a as [|c a IH]; intros [|d b] Heq.
  - done.
  - apply (f_equal String.length) in Heq.
    rewrite app_empty, app_cons in Heq. simpl in Heq.
    rewrite string_length_app in Heq. lia.
  - apply (f_equal String.length) in Heq.
    rewrite app_empty, app_cons in Heq. simpl in Heq.
    rewrite string_length_app in Heq. lia.
  - rewrite !app_cons in Heq. injection Heq as -> Heq. f_equal. by apply IH.
Qed.

Lemma split_at_first_slash (a b x y : string) :
  no_slash a = true → no_slash b = true →
  a +:+ String "/"%char x = b +:+ String "/"%char y → a = b ∧ x = y.
Proof.
  unfold no_slash. revert b.
  induction a as [|c a IH]; intros [|d b] Ha Hb Heq.
  - rewrite !app_empty in Heq. by injection Heq as ->.
  - rewrite app_empty, app_cons in Heq. injection Heq as <- _.
    simpl in Hb. done.
  - rewrite app_empty, app_cons in Heq. injection Heq as -> _.
    simpl in Ha. done.
  - rewrite !app_cons in Heq. injection Heq as -> Heq.
    simpl in Ha, Hb. apply andb_prop in Ha as [_ Ha].
    apply andb_prop in Hb as [_ Hb].
    destruct (IH b Ha Hb Heq) as [-> ->]. done.
Qed.

(** Two platforms whose company ids hold no slash share a master file only
    if they are the same platform of the same company. *)
Theorem getMasterFilePath_inj companyId1 platformId1 companyId2 platformId2 :
  no_slash companyId1 = true → no_slash companyId2 = true →
  getMasterFilePath companyId1 platformId1
  = getMasterFilePath companyId2 platformId2 →
  companyId1 = companyId2 ∧ platformId1 = platformId2.
Proof.
  intros H1 H2 Heq. unfold getMasterFilePath in Heq.
  apply (inj (String.app "companies/")) in Heq.
  change ("/platforms/" +:+ ?p +:+ "/master.xlsx")
    with (String "/"%char ("platforms/" +:+ p +:+ "/master.xlsx")) in Heq.
  apply split_at_first_slash in Heq as [-> Heq]; [|done..].
  split; [done|].
  apply (inj (String.app "platforms/")) in Heq. by apply app_inj_r in Heq.
Qed.

Lemma getMasterFilePath_inj_witness :
  no_slash "c1" = true ∧ no_slash "c1" = true ∧
  getMasterFilePath "c1" "p1" = getMasterFilePath "c1" "p1" ∧
  "c1" = "c1" ∧ "p1" = "p1".
Proof.
  assert (H1 : no_slash "c1" = true) by done.
  assert (H3 : getMasterFilePath "c1" "p1" = getMasterFilePath "c1" "p1")
    by done.
  split; [exact H1|]. split; [exact H1|]. split; [exact H3|].
  exact (getMasterFilePath_inj "c1" "p1" "c1" "p1" H1 H1 H3).
Defined.

(** With a slash in a company id two different platforms can share one
    master file. *)
Example getMasterFilePath_collision :
  getMasterFilePath "a/platforms/b" "c" = getMasterFilePath "a" "b/platforms/c".
Proof. done. Qed.

(** * Updating an order from the dashboard *)

Lemma masterFileUpdates_other data f :
  f ∉ order_update_fields → masterFileUpdates data !! f = None.
Proof.
  unfold masterFileUpdates.
  assert (Hgen : ∀ (fields : list string) (updates : gmap string value),
             f ∉ fields → updates !! f = None →
             foldl (λ updates k,
                      match data !! k with
                      | None | Some VUndef => updates
                      | Some v => <[k := v]> updates
                      end) updates fields !! f = None).
  { induction fields as [|k fields IH]; intros updates Hf Hnone; [done|].
    apply not_elem_of_cons in Hf as [Hne Hf]. simpl. apply IH; [done|].
    destruct (data !! k) as [[]|]; try done; by rewrite lookup_insert_ne. }
  intros Hf. by apply Hgen.
Qed.

Lemma replace_first_elem key (f : MergedRow → MergedRow) rows rows' row' :
  replace_first key f rows = Some rows' → row' ∈ rows' →
  row' ∈ rows ∨ ∃ row, row ∈ rows ∧ row' = f row.
Proof.
  revert rows'. induction rows as [|row rows IH]; intros rows'; simpl; [done|].
  destruct (String.eqb (rowKey row) key).
  - intros [= <-] [->|Hin]%elem_of_cons.
    + right. exists row. split; [apply elem_of_cons; by left | done].
    + left. apply elem_of_cons. by right.
  - destruct (replace_first key f rows) as [l|]; simpl; [|done].
    intros [= <-] [->|Hin]%elem_of_cons.
    + left. apply elem_of_cons. by left.
    + destruct (IH l eq_refl Hin) as [?|(r & Hr & ->)].
      * left. apply elem_of_cons. by right.
      * right. exists r. split; [apply elem_of_cons; by right | done].
Qed.

(** An update from the dashboard reaches the master file of the order's
    platform through six fields only: every row it writes is a stored row of
    that file, with the same identifiers and, outside those six fields, the
    same values. *)
Theorem updateOrder_changes_six_fields cmp storage orders id data rows' :
  updateOrder cmp storage orders id data = Returned rows' →
  ∃ order rows,
    List.find (λ o, String.eqb (Order.id o) id) orders = Some order ∧
    readMasterFile
      (storage (getMasterFilePath (Order.companyId order)
                  (Order.platformId order))) = Returned rows ∧
    ∀ row', row' ∈ rows' →
      ∃ row, row ∈ rows ∧ orderId row' = orderId row ∧
             rowKey row' = rowKey row ∧
             ∀ f, f ∉ order_update_fields →
                  props row' !! f = props row !! f.
Proof.
  unfold updateOrder.
  destruct (List.find _ orders) as [order|]; [|done].
  unfold updateOrderInMasterFile.
  destruct (readMasterFile _) as [[|row rows]|msg] eqn:Hread; try done.
  destruct (replace_first _ _ (row :: rows)) as [l|] eqn:Hreplace; [|done].
  intros [= <-]. exists order, (row :: rows).
  split; [done|]. split; [done|].
  intros row' Hin. rewrite sort_rows_perm in Hin.
  destruct (replace_first_elem _ _ _ _ _ Hreplace Hin) as [?|(r & Hr & ->)].
  - exists row'. eauto.
  - exists r. split; [done|]. split; [done|].
    split; [apply rowKey_apply_updates|].
    intros f Hf. simpl. rewrite lookup_union.
    assert (delete "orderId" (delete "subOrderId" (masterFileUpdates data))
              !! f = None) as ->.
    { rewrite !lookup_delete. repeat case_decide; try done.
      by apply masterFileUpdates_other. }
    by destruct (props r !! f).
Qed.

Lemma updateOrder_changes_six_fields_witness :
  updateOrder bytewise (store_of [ledger_A1; digit_row])
    [mergedRowToOrder ledger_A1 "c1" "p1"] "A1_A1"
    (<["productName" := VStr "Gadget"]> return_patch)
    = Returned [digit_row; apply_updates return_patch ledger_A1] ∧
  ∃ order rows,
    List.find (λ o, String.eqb (Order.id o) "A1_A1")
      [mergedRowToOrder ledger_A1 "c1" "p1"] = Some order ∧
    readMasterFile
      (store_of [ledger_A1; digit_row]
         (getMasterFilePath (Order.companyId order)
            (Order.platformId order))) = Returned rows ∧
    ∀ row', row' ∈ [digit_row; apply_updates return_patch ledger_A1] →
      ∃ row, row ∈ rows ∧ orderId row' = orderId row ∧
             rowKey row' = rowKey row ∧
             ∀ f, f ∉ order_update_fields →
                  props row' !! f = props row !! f.
Proof.
  assert (H : updateOrder bytewise (store_of [ledger_A1; digit_row])
                [mergedRowToOrder ledger_A1 "c1" "p1"] "A1_A1"
                (<["productName" := VStr "Gadget"]> return_patch)
              = Returned [digit_row; apply_updates return_patch ledger_A1])
    by (by vm_compute).
  split; [exact H|].
  exact (updateOrder_changes_six_fields bytewise
           (store_of [ledger_A1; digit_row])
           [mergedRowToOrder ledger_A1 "c1" "p1"] "A1_A1"
           (<["productName" := VStr "Gadget"]> return_patch)
           [digit_row; apply_updates return_patch ledger_A1] H).
Defined.
